(** * fusionData: the per-voxel store of the depth-map fusion (src/inc/fusion.h)

    A shallow embedding of the class template [fusionData<_histBins, _onDevice>].

    Conventions of the embedding:
    - [float] and [double] values are real numbers; arithmetic on them is
      exact.  Rounding, overflow to infinity and NaN are outside the model.
      A floating division whose divisor is zero is not given a value: it is
      reported as [DivByZero].
    - [projectUnitBall] squares its argument, which leaves the binary32 range
      for components beyond about 1.8e19: its values are the extended values
      [fval] (a real, an infinity or NaN), an operation whose exact result
      reaches the binary32 overflow threshold yields an infinity, and
      rounding alone stays outside the model.
    - [unsigned char] values are integers reduced modulo 256 ([uchar]),
      [size_t] values are integers reduced modulo 2^64 ([size_t]).
    - A C array of [_histBins] cells is a map from subscripts to contents;
      every access checks the subscript against the array size and reports
      [OutOfRange] where C++ has undefined behaviour.
    - The voxel storage [_voxel] is the memory behind the pointer: a map from
      element offsets to voxels.  Voxel accessors do no bound check, as in the
      source.
    - The template parameters [_histBins] and [_onDevice] are the first
      arguments of every definition that depends on them. *)

From Stdlib Require Import Reals Lra Lia ZArith List Bool R_Ifp.
From Stdlib Require Import Sorting.Permutation Sorting.Sorted.
Import ListNotations.

Local Open Scope Z_scope.

(** ** Machine integers *)

Definition uchar (n : Z) : Z := n mod 256.

Definition size_t (n : Z) : Z := n mod 2 ^ 64.

(** ** Outcomes of a call *)

Inductive result (A : Type) : Type :=
| Ok (a : A)
| DivByZero
| OutOfRange
| Diverge.

Arguments Ok {A} a.
Arguments DivByZero {A}.
Arguments OutOfRange {A}.
Arguments Diverge {A}.

Definition bind {A B : Type} (c : result A) (k : A -> result B) : result B :=
  match c with
  | Ok a => k a
  | DivByZero => DivByZero
  | OutOfRange => OutOfRange
  | Diverge => Diverge
  end.

Notation "x <- c ;; k" := (bind c (fun x => k))
  (at level 61, c at next level, right associativity).

Notation "' pat <- c ;; k" := (bind c (fun x => match x with pat => k end))
  (at level 61, pat pattern, c at next level, right associativity).

(** ** Floating-point primitives *)

(** [a / b] on floats. *)
Definition fdiv (a b : R) : result R :=
  if Req_dec_T b 0 then DivByZero else Ok (a / b)%R.

(** [roundf]: nearest integer, halfway cases away from zero. *)
Definition roundf (r : R) : Z :=
  if Rle_dec 0 r then Int_part (r + / 2) else - Int_part (- r + / 2).

(** ** Binary32 values with overflow

    The values of a [float] where overflow matters: a real, the two
    infinities, NaN.  The sign of a zero is not kept. *)

Inductive fval : Type :=
| Fin (r : R)
| PInf
| NInf
| NaN.

(** The least magnitude that rounds to an infinity: half an ulp above
    [FLT_MAX], [2^128 - 2^103]. *)
Definition overflow_threshold : R := IZR (2 ^ 128 - 2 ^ 103).

(** The value of an operation whose exact result is [r]. *)
Definition fin (r : R) : fval :=
  if Rle_dec overflow_threshold r then PInf
  else if Rle_dec r (- overflow_threshold) then NInf
  else Fin r.

Definition signed_inf (positive : bool) : fval := if positive then PInf else NInf.

(** An infinity of the given sign multiplied by the real [r]. *)
Definition inf_times (positive : bool) (r : R) : fval :=
  if Req_dec_T r 0 then NaN
  else if Rlt_dec 0 r then signed_inf positive
  else signed_inf (negb positive).

(** [a * b], [a + b] and [sqrt(a)] on floats. *)
Definition xmul (a b : fval) : fval :=
  match a, b with
  | NaN, _ | _, NaN => NaN
  | Fin x, Fin y => fin (x * y)
  | Fin x, PInf | PInf, Fin x => inf_times true x
  | Fin x, NInf | NInf, Fin x => inf_times false x
  | PInf, PInf | NInf, NInf => PInf
  | PInf, NInf | NInf, PInf => NInf
  end.

Definition xadd (a b : fval) : fval :=
  match a, b with
  | NaN, _ | _, NaN => NaN
  | Fin x, Fin y => fin (x + y)
  | PInf, NInf | NInf, PInf => NaN
  | PInf, _ | _, PInf => PInf
  | NInf, _ | _, NInf => NInf
  end.

Definition xsqrt (a : fval) : fval :=
  match a with
  | Fin x => if Rlt_dec x 0 then NaN else Fin (sqrt x)
  | PInf => PInf
  | NInf => NaN
  | NaN => NaN
  end.

(** [fmaxf]: the larger argument; a NaN argument is ignored. *)
Definition fmaxf (a b : fval) : fval :=
  match a, b with
  | NaN, _ => b
  | _, NaN => a
  | PInf, _ | _, PInf => PInf
  | NInf, _ => b
  | _, NInf => a
  | Fin x, Fin y => Fin (Rmax x y)
  end.

(** [a / b] on floats that may be infinite. *)
Definition xdiv (a b : fval) : result fval :=
  match a, b with
  | NaN, _ | _, NaN => Ok NaN
  | Fin x, Fin y => if Req_dec_T y 0 then DivByZero else Ok (fin (x / y))
  | Fin _, PInf | Fin _, NInf => Ok (Fin 0)
  | PInf, Fin y => if Req_dec_T y 0 then DivByZero else Ok (inf_times true y)
  | NInf, Fin y => if Req_dec_T y 0 then DivByZero else Ok (inf_times false y)
  | PInf, PInf | PInf, NInf | NInf, PInf | NInf, NInf => Ok NaN
  end.

(** ** Arrays of [n] cells *)

Definition array (A : Type) : Type := Z -> A.

Definition in_bounds (n k : Z) : bool := (0 <=? k) && (k <? n).

Definition aget {A : Type} (n : Z) (a : array A) (k : Z) : result A :=
  if in_bounds n k then Ok (a k) else OutOfRange.

Definition upd {A : Type} (a : array A) (k : Z) (v : A) : array A :=
  fun i => if i =? k then v else a i.

Definition aset {A : Type} (n : Z) (a : array A) (k : Z) (v : A) : result (array A) :=
  if in_bounds n k then Ok (upd a k v) else OutOfRange.

(** ** [for] loops driven by an [unsigned char] counter

    [for (unsigned char j = j0; cond(j); j++) body].  The counter has 256
    values and the condition depends on the counter only, so a loop that has
    not left after [loop_fuel] tests never leaves. *)

Fixpoint for_uchar {St : Type} (fuel : nat) (cond : Z -> bool)
  (body : Z -> St -> result St) (j : Z) (s : St) : result St :=
  match fuel with
  | O => Diverge
  | S fuel' =>
      if cond j
      then s' <- body j s ;; for_uchar fuel' cond body (uchar (j + 1)) s'
      else Ok s
  end.

Definition loop_fuel : nat := 257.

(** The same loop unrolled over the list of counter values. *)

Fixpoint foldM {St : Type} (body : Z -> St -> result St) (l : list Z) (s : St) : result St :=
  match l with
  | [] => Ok s
  | j :: l' => s' <- body j s ;; foldM body l' s'
  end.

Fixpoint Zseq (lo : Z) (len : nat) : list Z :=
  match len with
  | O => []
  | S len' => lo :: Zseq (lo + 1) len'
  end.

(** ** Vectors *)

Module Float3.
Record float3 : Type := make_float3 { x : R; y : R; z : R }.
End Float3.
Abbreviation float3 := Float3.float3.
Abbreviation make_float3 := Float3.make_float3.

(** A [float3] whose components may be infinite or NaN. *)
Module Float3x.
Record float3x : Type := make_float3x { x : fval; y : fval; z : fval }.
End Float3x.
Abbreviation float3x := Float3x.float3x.
Abbreviation make_float3x := Float3x.make_float3x.

(** A vector of real components as a [float3x]. *)
Definition of_float3 (a : float3) : float3x :=
  make_float3x (Fin (Float3.x a)) (Fin (Float3.y a)) (Fin (Float3.z a)).

(** [operator/(float3, float)]: component-wise. *)
Definition float3_div (a : float3x) (b : fval) : result float3x :=
  qx <- xdiv (Float3x.x a) b ;;
  qy <- xdiv (Float3x.y a) b ;;
  qz <- xdiv (Float3x.z a) b ;;
  Ok (make_float3x qx qy qz).

Definition dot (a b : float3) : R :=
  (Float3.x a * Float3.x b + Float3.y a * Float3.y b + Float3.z a * Float3.z b)%R.

(** ** Histogram of a voxel *)

(** Modelled from the spec: [struct histogram<_histBins>] (structs.h, not
    among the sources).  "A fixed-size per-voxel count vector": cell 0 is the
    "occluded" bin, cell [_histBins - 1] the "empty" bin, each cell "holds a
    non-negative integer count".  The width of a count is not stated, so a
    count is an unbounded integer here. *)
Record histogram : Type := { bin : array Z }.

(** Modelled from the spec: the increment of one cell, [bin[k]++]. *)
Definition bin_incr (_histBins : Z) (hist : histogram) (k : Z) : result histogram :=
  c <- aget _histBins (bin hist) k ;;
  b <- aset _histBins (bin hist) k (c + 1) ;;
  Ok {| bin := b |}.

(** Modelled from the spec: [histogram::first()] and [histogram::last()],
    the "convenience accessors for the first and last (occlusion/empty)
    bins". *)
Definition first_index : Z := 0.

Definition last_index (_histBins : Z) : Z := _histBins - 1.

(** Modelled from the spec: [histogram::operator()(i)], "indexed access to
    counts (by bin index, 1-based in the public operator convention)": the
    operator index [i] addresses cell [i - 1]. *)
Definition op_index (i : Z) : Z := i - 1.

Definition hist_at (_histBins : Z) (hist : histogram) (i : Z) : result Z :=
  aget _histBins (bin hist) (op_index i).

(** ** Voxels and the store *)

Module Voxel.
Record fusionvoxel : Type := make { u : R; v : R; p : float3; h : histogram }.
End Voxel.
Abbreviation fusionvoxel := Voxel.fusionvoxel.

(** The data members of [fusionData] used by the operators below (the
    bounding volume [_vol] takes no part in them). *)
Record fusionData : Type := {
  _voxel : Z -> fusionvoxel;
  _bincenters : array R;
  _binstep : R;
  _w : Z;
  _h : Z;
  _d : Z;
  _pitch : Z;
  _spitch : Z
}.

(** [nx+ny*_w+nz*_w*_h], computed in [size_t]. *)
Definition offset (g : fusionData) (nx ny nz : Z) : Z :=
  size_t (nx + ny * _w g + nz * _w g * _h g).

Definition u (g : fusionData) (nx ny nz : Z) : R := Voxel.u (_voxel g (offset g nx ny nz)).

Definition v (g : fusionData) (nx ny nz : Z) : R := Voxel.v (_voxel g (offset g nx ny nz)).

Definition p (g : fusionData) (nx ny nz : Z) : float3 := Voxel.p (_voxel g (offset g nx ny nz)).

Definition h (g : fusionData) (nx ny nz : Z) : histogram := Voxel.h (_voxel g (offset g nx ny nz)).

(** Assignment through the reference returned by [h(nx, ny, nz)]. *)
Definition set_h (g : fusionData) (nx ny nz : Z) (hist : histogram) : fusionData :=
  let o := offset g nx ny nz in
  let vox := _voxel g o in
  {| _voxel := fun i => if i =? o
                        then Voxel.make (Voxel.u vox) (Voxel.v vox) (Voxel.p vox) hist
                        else _voxel g i;
     _bincenters := _bincenters g;
     _binstep := _binstep g;
     _w := _w g; _h := _h g; _d := _d g;
     _pitch := _pitch g; _spitch := _spitch g |}.

(** ** Bin parameters *)

(** [binParams()], on the two members it writes.  [bc] is the content of
    [_bincenters] before the call. *)
Definition binParams (_histBins : Z) (bc : array R) : result (array R * R) :=
  bc <- aset _histBins bc 0 (-1)%R ;;
  bc <- aset _histBins bc (_histBins - 1) 1%R ;;
  bc <- for_uchar loop_fuel (fun i => i <? _histBins - 1)
          (fun i bc =>
             q <- fdiv (2 * IZR (i - 1))%R (IZR (_histBins - 3)) ;;
             aset _histBins bc i (q - 1)%R)
          1 bc ;;
  st <- fdiv 2%R (IZR (_histBins - 3)) ;;
  Ok (bc, st).

(** [fusionData(w, h, d)]: [binParams()] then [Malloc].  The allocation
    backend is not part of this class: the storage it hands back ([mem],
    [pitch], [spitch]) and the indeterminate initial content of
    [_bincenters] ([bc]) are arguments. *)
Definition construct (_histBins : Z) (w h d : Z)
  (mem : Z -> fusionvoxel) (pitch spitch : Z) (bc : array R) : result fusionData :=
  ' (bc', st) <- binParams _histBins bc ;;
  Ok {| _voxel := mem; _bincenters := bc'; _binstep := st;
        _w := w; _h := h; _d := d; _pitch := pitch; _spitch := spitch |}.

(** [binCenter(binindex)]. *)
Definition binCenter (_histBins : Z) (g : fusionData) (binindex : Z) : result R :=
  if binindex <? _histBins then aget _histBins (_bincenters g) binindex
  else Ok 0%R.

(** [binStep()]. *)
Definition binStep (g : fusionData) : R := _binstep g.

(** ** Difference operators

    Voxel coordinates are [int] or [uint] in the source; they are integers
    here and their 32-bit range is left implicit.  The bounds [_w - 1],
    [_h - 1], [_d - 1] are [size_t] values. *)

Definition set_x (r : float3) (a : R) : float3 := make_float3 a (Float3.y r) (Float3.z r).

Definition set_y (r : float3) (a : R) : float3 := make_float3 (Float3.x r) a (Float3.z r).

Definition set_z (r : float3) (a : R) : float3 := make_float3 (Float3.x r) (Float3.y r) a.

(** [gradUFwd(x, y, z)]. *)
Definition gradUFwd (g : fusionData) (x y z : Z) : float3 :=
  let u0 := u g x y z in
  let result := make_float3 0 0 0 in
  let result := if x <? size_t (_w g - 1) then set_x result (u g (x + 1) y z - u0)%R else result in
  let result := if y <? size_t (_h g - 1) then set_y result (u g x (y + 1) z - u0)%R else result in
  let result := if z <? size_t (_d g - 1) then set_z result (u g x y (z + 1) - u0)%R else result in
  result.

(** [gradVFwd(x, y, z)]. *)
Definition gradVFwd (g : fusionData) (x y z : Z) : float3 :=
  let v0 := v g x y z in
  let result := make_float3 0 0 0 in
  let result := if x <? size_t (_w g - 1) then set_x result (v g (x + 1) y z - v0)%R else result in
  let result := if y <? size_t (_h g - 1) then set_y result (v g x (y + 1) z - v0)%R else result in
  let result := if z <? size_t (_d g - 1) then set_z result (v g x y (z + 1) - v0)%R else result in
  result.

(** [divPBwd(x, y, z)]. *)
Definition divPBwd (g : fusionData) (x y z : Z) : R :=
  let p0 := p g x y z in
  let result := (Float3.x p0 + Float3.y p0 + Float3.z p0)%R in
  let result := if 0 <? x then (result - Float3.x (p g (x - 1) y z))%R else result in
  let result := if 0 <? y then (result - Float3.y (p g x (y - 1) z))%R else result in
  let result := if 0 <? z then (result - Float3.z (p g x y (z - 1)))%R else result in
  result.

(** ** The proximal step of the histogram term *)

(** [Wi(i, x, y, z)].  The accumulator [r] is an [int]; it is not reduced
    here. *)
Definition Wi (_histBins : Z) (g : fusionData) (i x y z : Z) : result Z :=
  r <- for_uchar loop_fuel (fun j => j <=? i)
         (fun j r => c <- hist_at _histBins (h g x y z) j ;; Ok (r - c))
         1 0 ;;
  for_uchar loop_fuel (fun j => j <=? _histBins)
    (fun j r => c <- hist_at _histBins (h g x y z) j ;; Ok (r + c))
    (uchar (i + 1)) r.

(** [pi(u, i, x, y, z, tau, lambda)]. *)
Definition pi (_histBins : Z) (g : fusionData) (u0 : R) (i x y z : Z) (tau lambda : R) : result R :=
  w <- Wi _histBins g i x y z ;;
  Ok (u0 + tau * lambda * IZR w)%R.

(** Modelled from the spec: [struct sortedHist<_histBins>] (helper_structs.h,
    not among the sources), the "MedianEstimator".  It is built from the bin
    centers, the candidates are inserted "into a sorted structure" and
    [median()] "returns the median" of "the generated candidate set".  For an
    even number of candidates the tie-break fixed here is the upper median:
    the element of rank [length / 2] (ranks from 0) in ascending order. *)
Record sortedHist : Type := { centers : array R; element : list R }.

Definition sortedHist_of (bincenters : array R) : sortedHist :=
  {| centers := bincenters; element := [] |}.

Fixpoint insert_sorted (val : R) (l : list R) : list R :=
  match l with
  | [] => [val]
  | e :: l' => if Rle_dec val e then val :: l else e :: insert_sorted val l'
  end.

Definition insert (s : sortedHist) (val : R) : sortedHist :=
  {| centers := centers s; element := insert_sorted val (element s) |}.

Definition median (s : sortedHist) : R :=
  nth (length (element s) / 2) (element s) 0%R.

(** [proxHist(u, x, y, z, tau, lambda)]. *)
Definition proxHist (_histBins : Z) (g : fusionData) (u0 : R) (x y z : Z) (tau lambda : R) : result R :=
  let prox := sortedHist_of (_bincenters g) in
  let prox := insert prox u0 in
  prox <- for_uchar loop_fuel (fun j => j <=? _histBins)
            (fun j prox => c <- pi _histBins g u0 j x y z tau lambda ;; Ok (insert prox c))
            1 prox ;;
  Ok (median prox).

(** ** Projection of the dual variable *)

(** [projectUnitBall(x)]. *)
Definition projectUnitBall (x : float3x) : result float3x :=
  float3_div x
    (fmaxf (Fin 1)
       (xsqrt (xadd (xadd (xmul (Float3x.x x) (Float3x.x x))
                          (xmul (Float3x.y x) (Float3x.y x)))
                    (xmul (Float3x.z x) (Float3x.z x))))).

(** ** Histogram update *)

(** [this->h(x, y, z).last()++], [this->h(x, y, z).first()++] and
    [this->h(x, y, z)(i)++]. *)
Definition h_last_incr (_histBins : Z) (g : fusionData) (x y z : Z) : result fusionData :=
  hist <- bin_incr _histBins (h g x y z) (last_index _histBins) ;;
  Ok (set_h g x y z hist).

Definition h_first_incr (_histBins : Z) (g : fusionData) (x y z : Z) : result fusionData :=
  hist <- bin_incr _histBins (h g x y z) first_index ;;
  Ok (set_h g x y z hist).

Definition h_op_incr (_histBins : Z) (g : fusionData) (x y z : Z) (i : Z) : result fusionData :=
  hist <- bin_incr _histBins (h g x y z) (op_index i) ;;
  Ok (set_h g x y z hist).

(** [updateHist(x, y, z, voxdepth, depth, threshold)]. *)
Definition updateHist (_histBins : Z) (g : fusionData) (x y z : Z)
  (voxdepth depth threshold : R) : result fusionData :=
  let sd := (voxdepth - depth)%R in
  let threshold := if _histBins =? 2 then 0%R else threshold in
  if Rle_dec threshold sd then h_last_incr _histBins g x y z
  else if Rle_dec sd (- threshold) then h_first_incr _histBins g x y z
  else
    q <- fdiv (sd + threshold) (2 * threshold) ;;
    h_op_incr _histBins g x y z (roundf (q * IZR (_histBins - 3))).

(** ** Transfers *)

Section Transfer.

(** The memory backend (memory.h) is outside this class and is a parameter
    here: its status codes, its own state, and its three copy primitives.  A
    primitive is called with (destination, destination pitch, source, source
    pitch, w, h, d); it yields its status, the content of the destination
    after the call, and the next backend state. *)
Variable cudaError_t : Type.
Variable backend : Type.

Definition storage : Type := Z -> fusionvoxel.

Definition copy_primitive : Type :=
  storage -> Z -> storage -> Z -> Z -> Z -> Z -> backend -> cudaError_t * storage * backend.

Variables Host2DeviceCopy Device2HostCopy Host2HostCopy : copy_primitive.

Definition set_voxel (g : fusionData) (mem : storage) : fusionData :=
  {| _voxel := mem;
     _bincenters := _bincenters g;
     _binstep := _binstep g;
     _w := _w g; _h := _h g; _d := _d g;
     _pitch := _pitch g; _spitch := _spitch g |}.

(** [copyFrom(data, npitch)]: the store is the destination. *)
Definition copyFrom (_onDevice : bool) (g : fusionData) (data : storage) (npitch : Z)
  (b : backend) : cudaError_t * fusionData * backend :=
  let '(e, mem, b') :=
    if _onDevice
    then Host2DeviceCopy (_voxel g) (_pitch g) data npitch (_w g) (_h g) (_d g) b
    else Host2HostCopy (_voxel g) (_pitch g) data npitch (_w g) (_h g) (_d g) b in
  (e, set_voxel g mem, b').

(** [copyTo(data, npitch)]: the buffer [data] is the destination. *)
Definition copyTo (_onDevice : bool) (g : fusionData) (data : storage) (npitch : Z)
  (b : backend) : cudaError_t * storage * backend :=
  if _onDevice
  then Device2HostCopy data npitch (_voxel g) (_pitch g) (_w g) (_h g) (_d g) b
  else Host2HostCopy data npitch (_voxel g) (_pitch g) (_w g) (_h g) (_d g) b.

End Transfer.

(** ** Sums over the lattice *)

(** [sum_upto n f] is the sum of [f k] over [0 <= k < n]. *)
Fixpoint sum_upto (n : nat) (f : Z -> R) : R :=
  match n with
  | O => 0%R
  | S k => (sum_upto k f + f (Z.of_nat k))%R
  end.

(** The sum of [F x y z] over a lattice of [nw * nh * nd] points. *)
Definition sum3 (nw nh nd : nat) (F : Z -> Z -> Z -> R) : R :=
  sum_upto nd (fun z => sum_upto nh (fun y => sum_upto nw (fun x => F x y z))).

(** The sum of [F x y z] over all voxels of the store. *)
Definition sum_voxels (g : fusionData) (F : Z -> Z -> Z -> R) : R :=
  sum3 (Z.to_nat (_w g)) (Z.to_nat (_h g)) (Z.to_nat (_d g)) F.

(** ** Statements of the specification *)

(** The adjoint relation between the forward gradient and the backward
    divergence. *)
Definition adjoint_pair (g : fusionData) : Prop :=
  sum_voxels g (fun x y z => dot (gradUFwd g x y z) (p g x y z))
  = (- sum_voxels g (fun x y z => u g x y z * divPBwd g x y z))%R.

(** The dual field vanishes across the upper faces of the lattice. *)
Definition closed_upper_faces (g : fusionData) : Prop :=
  (forall y z, 0 <= y < _h g -> 0 <= z < _d g -> Float3.x (p g (_w g - 1) y z) = 0%R) /\
  (forall x z, 0 <= x < _w g -> 0 <= z < _d g -> Float3.y (p g x (_h g - 1) z) = 0%R) /\
  (forall x y, 0 <= x < _w g -> 0 <= y < _h g -> Float3.z (p g x y (_d g - 1)) = 0%R).

(** The value written by [binParams] into an interior cell. *)
Definition interior_center (_histBins i : Z) : R :=
  (2 * IZR (i - 1) / IZR (_histBins - 3) - 1)%R.

(** The backward term of one axis: the neighbour's component when the
    coordinate is positive, nothing otherwise. *)
Definition backward_term (k : Z) (neighbour : R) : R :=
  if 0 <? k then neighbour else 0%R.

(** The routing of [updateHist] read as three independent rules: with
    [sd = voxdepth - depth] and [t] the threshold after the two-bin
    override, [sd >= t] increments the "empty" bin, [sd <= -t] increments the
    "occluded" bin, anything else increments bin [round(...)]. *)
Definition routes_independently (_histBins : Z) (g : fusionData) (x y z : Z)
  (voxdepth depth threshold : R) : Prop :=
  let sd := (voxdepth - depth)%R in
  let t := if _histBins =? 2 then 0%R else threshold in
  ((t <= sd)%R ->
     updateHist _histBins g x y z voxdepth depth threshold = h_last_incr _histBins g x y z)
  /\ ((sd <= - t)%R ->
     updateHist _histBins g x y z voxdepth depth threshold = h_first_incr _histBins g x y z)
  /\ (~ (t <= sd)%R -> ~ (sd <= - t)%R ->
     updateHist _histBins g x y z voxdepth depth threshold
     = h_op_incr _histBins g x y z (roundf ((sd + t) / (2 * t) * IZR (_histBins - 3)))).

(** The cell of the histogram that a call of [updateHist] addresses. *)
Definition bucket (_histBins : Z) (sd threshold : R) : Z :=
  let t := if _histBins =? 2 then 0%R else threshold in
  if Rle_dec t sd then last_index _histBins
  else if Rle_dec sd (- t) then first_index
  else op_index (roundf ((sd + t) / (2 * t) * IZR (_histBins - 3))).

(** A run of calls of [updateHist] on one voxel; an observation is
    (voxdepth, depth, threshold). *)
Fixpoint updateHist_run (_histBins : Z) (g : fusionData) (x y z : Z)
  (obs : list (R * R * R)) : result fusionData :=
  match obs with
  | [] => Ok g
  | (voxdepth, depth, threshold) :: obs' =>
      g' <- updateHist _histBins g x y z voxdepth depth threshold ;;
      updateHist_run _histBins g' x y z obs'
  end.

(** Bin centers strictly increasing in the bin index. *)
Definition centers_strictly_increasing (_histBins : Z) (g : fusionData) : Prop :=
  forall i j ci cj, 0 <= i -> i < j -> j < _histBins ->
    binCenter _histBins g i = Ok ci -> binCenter _histBins g j = Ok cj -> (ci < cj)%R.

(** Bin centers non-decreasing in the bin index. *)
Definition centers_non_decreasing (_histBins : Z) (g : fusionData) : Prop :=
  forall i j ci cj, 0 <= i -> i <= j -> j < _histBins ->
    binCenter _histBins g i = Ok ci -> binCenter _histBins g j = Ok cj -> (ci <= cj)%R.

(** The word of the specification on the candidates of the proximal step:
    [h(j)] is the count read through the histogram operator, [W_i] is
    [-(h(1) + ... + h(i)) + (h(i+1) + ... + h(bins))]. *)
Definition sum_h (hist : histogram) (l : list Z) : Z :=
  fold_right (fun j acc => bin hist (op_index j) + acc) 0 l.

Definition W_spec (_histBins : Z) (hist : histogram) (i : Z) : Z :=
  - sum_h hist (Zseq 1 (Z.to_nat i))
  + sum_h hist (Zseq (i + 1) (Z.to_nat (_histBins - i))).

Definition candidates (_histBins : Z) (hist : histogram) (u0 tau lambda : R) : list R :=
  u0 :: map (fun i => (u0 + tau * lambda * IZR (W_spec _histBins hist i))%R)
            (Zseq 1 (Z.to_nat _histBins)).

(** [m] is a median of [l]: an element of [l] with at most half of the
    elements below it and at most half above it. *)
Definition count_below (m : R) (l : list R) : nat :=
  length (filter (fun a => if Rlt_dec a m then true else false) l).

Definition count_above (m : R) (l : list R) : nat :=
  length (filter (fun a => if Rlt_dec m a then true else false) l).

Definition is_median (l : list R) (m : R) : Prop :=
  In m l /\ (2 * count_below m l <= length l)%nat /\ (2 * count_above m l <= length l)%nat.

(** [c . a], the vector [a] scaled by [c]. *)
Definition scale (c : R) (a : float3) : float3 :=
  make_float3 (c * Float3.x a)%R (c * Float3.y a)%R (c * Float3.z a)%R.

(** The Euclidean norm. *)
Definition norm2 (a : float3) : R :=
  sqrt (Float3.x a * Float3.x a + Float3.y a * Float3.y a + Float3.z a * Float3.z a).

(** The squared Euclidean norm. *)
Definition sum_squares (a : float3) : R :=
  (Float3.x a * Float3.x a + Float3.y a * Float3.y a + Float3.z a * Float3.z a)%R.

(** [p / max(1, |p|)]. *)
Definition unit_ball_projection (a : float3) : float3 :=
  make_float3 (Float3.x a / Rmax 1 (norm2 a))%R (Float3.y a / Rmax 1 (norm2 a))%R
              (Float3.z a / Rmax 1 (norm2 a))%R.

(** The projection as the specification states it for the vector [a]:
    [projectUnitBall] returns [a / max(1, |a|)], which is [a] itself when
    [|a| <= 1] and a positive multiple of [a] of norm 1 when [|a| > 1]. *)
Definition projects_to_unit_ball (a : float3) : Prop :=
  projectUnitBall (of_float3 a) = Ok (of_float3 (unit_ball_projection a))
  /\ ((norm2 a <= 1)%R -> projectUnitBall (of_float3 a) = Ok (of_float3 a))
  /\ ((1 < norm2 a)%R ->
      exists q c, projectUnitBall (of_float3 a) = Ok (of_float3 q)
        /\ norm2 q = 1%R /\ (0 < c)%R /\ q = scale c a).

(** The vector [(2^67, 0, 0)], about [(1.5e20, 0, 0)]; [2^67] is a binary32
    value. *)
Definition huge_vector : float3 := make_float3 (IZR (2 ^ 67)) 0 0.

(** ** Concrete stores used in the examples *)

Definition hist0 : histogram := {| bin := fun _ => 0 |}.

Definition voxel0 : fusionvoxel := Voxel.make 0 0 (make_float3 0 0 0) hist0.

(** A line of two voxels: [u = 1], [p = (2, 0, 0)] at [(0,0,0)] and
    [u = 3], [p = (0, 0, 0)] at [(1,0,0)]. *)
Definition line_store : fusionData :=
  {| _voxel := fun i => if i =? 0
                        then Voxel.make 1 0 (make_float3 2 0 0) hist0
                        else Voxel.make 3 0 (make_float3 0 0 0) hist0;
     _bincenters := fun _ => 0%R;
     _binstep := 0%R;
     _w := 2; _h := 1; _d := 1;
     _pitch := 0; _spitch := 0 |}.

(** A store of [w * h * d] voxels, every voxel equal to [vox]. *)
Definition uniform_store (w h d : Z) (vox : fusionvoxel) : fusionData :=
  {| _voxel := fun _ => vox;
     _bincenters := fun _ => 0%R;
     _binstep := 0%R;
     _w := w; _h := h; _d := d;
     _pitch := 0; _spitch := 0 |}.

(** A store of one voxel with two bins: 3 "occluded" and 1 "empty"
    observations. *)
Definition two_bin_store : fusionData :=
  uniform_store 1 1 1
    (Voxel.make 0 0 (make_float3 0 0 0) {| bin := fun k => if k =? 0 then 3 else 1 |}).

(** ** Size queries *)

(** [width()], [height()], [depth()], [pitch()], [slicePitch()] and
    [bins()]. *)
Definition width (g : fusionData) : Z := _w g.

Definition height (g : fusionData) : Z := _h g.

Definition depth (g : fusionData) : Z := _d g.

Definition pitch (g : fusionData) : Z := _pitch g.

Definition slicePitch (g : fusionData) : Z := _spitch g.

Definition bins (_histBins : Z) : Z := _histBins.

(** [elements()]: [_w * _h * _d] in [size_t]. *)
Definition elements (g : fusionData) : Z := size_t (_w g * _h g * _d g).

(** [sizeBytes()]: [_spitch * _d] in [size_t]. *)
Definition sizeBytes (g : fusionData) : Z := size_t (_spitch g * _d g).

(** [sizeKBytes()], [sizeMBytes()] and [sizeGBytes()]: each divides the
    previous one by [1024.f]. *)
Definition sizeKBytes (g : fusionData) : result R := fdiv (IZR (sizeBytes g)) 1024.

Definition sizeMBytes (g : fusionData) : result R :=
  k <- sizeKBytes g ;; fdiv k 1024.

Definition sizeGBytes (g : fusionData) : result R :=
  m <- sizeMBytes g ;; fdiv m 1024.

(** [fusionData()]: all sizes 0, [binParams()], no allocation.  The pointer
    [_voxel] is left as it was ([mem]). *)
Definition construct_default (_histBins : Z) (mem : Z -> fusionvoxel) (bc : array R) :
  result fusionData :=
  ' (bc', st) <- binParams _histBins bc ;;
  Ok {| _voxel := mem; _bincenters := bc'; _binstep := st;
        _w := 0; _h := 0; _d := 0; _pitch := 0; _spitch := 0 |}.

(** ** World coordinates *)

(** [operator+(float3, float3)] and [operator*(float3, float3)]:
    component-wise. *)
Definition float3_add (a b : float3) : float3 :=
  make_float3 (Float3.x a + Float3.x b)%R (Float3.y a + Float3.y b)%R
              (Float3.z a + Float3.z b)%R.

Definition float3_mul (a b : float3) : float3 :=
  make_float3 (Float3.x a * Float3.x b)%R (Float3.y a * Float3.y b)%R
              (Float3.z a * Float3.z b)%R.

Section WorldCoords.

(** The class [Rectangle] (helper_structs.h) is a parameter: its type, its
    member [a] and its method [size()].  The member [_vol] of the store is
    passed to [worldCoords] as the argument [vol]. *)
Variable Rectangle : Type.
Variable rect_a : Rectangle -> float3.
Variable rect_size : Rectangle -> float3.

(** [worldCoords(x, y, z)]. *)
Definition worldCoords (g : fusionData) (vol : Rectangle) (x y z : Z) : result float3 :=
  fx <- fdiv (IZR x + / 2)%R (IZR (_w g)) ;;
  fy <- fdiv (IZR y + / 2)%R (IZR (_h g)) ;;
  fz <- fdiv (IZR z + / 2)%R (IZR (_d g)) ;;
  Ok (float3_add (rect_a vol) (float3_mul (rect_size vol) (make_float3 fx fy fz))).

End WorldCoords.

(** ** Statements about the lattice *)

(** [(x, y, z)] is a voxel of the store. *)
Definition in_lattice (g : fusionData) (x y z : Z) : Prop :=
  0 <= x < _w g /\ 0 <= y < _h g /\ 0 <= z < _d g.

(** The three sizes are [size_t] values. *)
Definition sizes_in_size_t (g : fusionData) : Prop :=
  0 <= _w g < 2 ^ 64 /\ 0 <= _h g < 2 ^ 64 /\ 0 <= _d g < 2 ^ 64.

(** Two stores of the same sizes. *)
Definition same_sizes (g g' : fusionData) : Prop :=
  _w g' = _w g /\ _h g' = _h g /\ _d g' = _d g.

(** [sum2 n1 n2 F] is the sum of [F a b] over [0 <= a < n1], [0 <= b < n2]. *)
Definition sum2 (n1 n2 : nat) (F : Z -> Z -> R) : R :=
  sum_upto n2 (fun b => sum_upto n1 (fun a => F a b)).

(** The operator index that the near-surface branch of [updateHist] passes
    to the histogram. *)
Definition near_index (_histBins : Z) (sd threshold : R) : Z :=
  roundf ((sd + threshold) / (2 * threshold) * IZR (_histBins - 3)).

(** The line of two voxels of [line_store], followed in memory by voxels that
    do not belong to the lattice and hold other values. *)
Definition line_store_padded : fusionData :=
  {| _voxel := fun i => if i =? 0
                        then Voxel.make 1 0 (make_float3 2 0 0) hist0
                        else if i =? 1
                             then Voxel.make 3 0 (make_float3 0 0 0) hist0
                             else Voxel.make 7 7 (make_float3 7 7 7) hist0;
     _bincenters := fun _ => 0%R;
     _binstep := 0%R;
     _w := 2; _h := 1; _d := 1;
     _pitch := 0; _spitch := 0 |}.

(** ** Writes through the accessors *)

(** Assignment through the references returned by [u(nx, ny, nz)],
    [v(nx, ny, nz)] and [p(nx, ny, nz)]. *)
Definition set_u (g : fusionData) (nx ny nz : Z) (a : R) : fusionData :=
  let o := offset g nx ny nz in
  let vox := _voxel g o in
  {| _voxel := fun i => if i =? o
                        then Voxel.make a (Voxel.v vox) (Voxel.p vox) (Voxel.h vox)
                        else _voxel g i;
     _bincenters := _bincenters g;
     _binstep := _binstep g;
     _w := _w g; _h := _h g; _d := _d g;
     _pitch := _pitch g; _spitch := _spitch g |}.

Definition set_v (g : fusionData) (nx ny nz : Z) (a : R) : fusionData :=
  let o := offset g nx ny nz in
  let vox := _voxel g o in
  {| _voxel := fun i => if i =? o
                        then Voxel.make (Voxel.u vox) a (Voxel.p vox) (Voxel.h vox)
                        else _voxel g i;
     _bincenters := _bincenters g;
     _binstep := _binstep g;
     _w := _w g; _h := _h g; _d := _d g;
     _pitch := _pitch g; _spitch := _spitch g |}.

Definition set_p (g : fusionData) (nx ny nz : Z) (a : float3) : fusionData :=
  let o := offset g nx ny nz in
  let vox := _voxel g o in
  {| _voxel := fun i => if i =? o
                        then Voxel.make (Voxel.u vox) (Voxel.v vox) a (Voxel.h vox)
                        else _voxel g i;
     _bincenters := _bincenters g;
     _binstep := _binstep g;
     _w := _w g; _h := _h g; _d := _d g;
     _pitch := _pitch g; _spitch := _spitch g |}.

(** * Properties *)

(** ** Arrays and loops *)

Lemma in_bounds_true (n k : Z) : 0 <= k < n -> in_bounds n k = true.
Proof.
  intros [H0 Hn]. unfold in_bounds.
  apply andb_true_iff. split; [apply Z.leb_le | apply Z.ltb_lt]; assumption.
Qed.

Lemma in_bounds_false (n k : Z) : k < 0 \/ n <= k -> in_bounds n k = false.
Proof.
  intros H. unfold in_bounds. apply andb_false_iff.
  destruct H as [H | H]; [left; apply Z.leb_gt | right; apply Z.ltb_ge]; assumption.
Qed.

Lemma aget_in {A : Type} (n : Z) (a : array A) (k : Z) :
  0 <= k < n -> aget n a k = Ok (a k).
Proof. intros H. unfold aget. now rewrite in_bounds_true. Qed.

Lemma aset_in {A : Type} (n : Z) (a : array A) (k : Z) (c : A) :
  0 <= k < n -> aset n a k c = Ok (upd a k c).
Proof. intros H. unfold aset. now rewrite in_bounds_true. Qed.

Lemma aget_out {A : Type} (n : Z) (a : array A) (k : Z) :
  k < 0 \/ n <= k -> aget n a k = OutOfRange.
Proof. intros H. unfold aget. now rewrite in_bounds_false. Qed.

Lemma upd_same {A : Type} (a : array A) (k : Z) (c : A) : upd a k c k = c.
Proof. unfold upd. now rewrite Z.eqb_refl. Qed.

Lemma upd_other {A : Type} (a : array A) (k i : Z) (c : A) : i <> k -> upd a k c i = a i.
Proof. intros H. unfold upd. apply Z.eqb_neq in H. now rewrite H. Qed.

Lemma uchar_small (n : Z) : 0 <= n < 256 -> uchar n = n.
Proof. intros H. unfold uchar. now apply Z.mod_small. Qed.

(** A loop whose test is [j <= hi], with [hi] below the largest counter
    value, runs once for each of [lo], [lo + 1], ..., [hi]. *)
Lemma for_uchar_foldM {St : Type} (cond : Z -> bool) (hi : Z) (body : Z -> St -> result St) :
  (forall j, cond j = (j <=? hi)) -> hi <= 254 ->
  forall (fuel : nat) (lo : Z) (s : St),
    0 <= lo -> (Z.to_nat (hi + 1 - lo) < fuel)%nat ->
    for_uchar fuel cond body lo s = foldM body (Zseq lo (Z.to_nat (hi + 1 - lo))) s.
Proof.
  intros Hcond Hhi fuel. induction fuel as [| fuel IH]; intros lo s Hlo Hfuel.
  - lia.
  - simpl. rewrite Hcond. destruct (Z.leb_spec lo hi) as [Hle | Hgt].
    + replace (Z.to_nat (hi + 1 - lo)) with (S (Z.to_nat (hi + 1 - (lo + 1)))) in * by lia.
      simpl. destruct (body lo s) as [s' | | |]; simpl; try reflexivity.
      rewrite uchar_small by lia. apply IH; lia.
    + replace (Z.to_nat (hi + 1 - lo)) with 0%nat by lia. reflexivity.
Qed.

Lemma for_uchar_step {St : Type} (cond : Z -> bool) (body : Z -> St -> result St)
  (fuel : nat) (j : Z) (s : St) :
  for_uchar (S fuel) cond body j s
  = if cond j
    then s' <- body j s ;; for_uchar fuel cond body (uchar (j + 1)) s'
    else Ok s.
Proof. reflexivity. Qed.

Lemma Zseq_In (len : nat) : forall lo j, In j (Zseq lo len) <-> lo <= j < lo + Z.of_nat len.
Proof.
  induction len as [| len IH]; intros lo j; simpl.
  - lia.
  - rewrite IH. lia.
Qed.

Lemma fdiv_ok (a b : R) : b <> 0%R -> fdiv a b = Ok (a / b)%R.
Proof. intros H. unfold fdiv. destruct (Req_dec_T b 0) as [E | _]; [contradiction | reflexivity]. Qed.

Lemma fdiv_zero (a : R) : fdiv a 0 = DivByZero.
Proof. unfold fdiv. destruct (Req_dec_T 0 0) as [_ | N]; [reflexivity | now elim N]. Qed.

(** ** Bin parameters *)

Lemma binParams_loop (n : Z) (len : nat) :
  n <> 3 ->
  forall lo bc, 0 <= lo -> lo + Z.of_nat len <= n ->
    exists bc',
      foldM (fun i bc =>
               q <- fdiv (2 * IZR (i - 1))%R (IZR (n - 3)) ;;
               aset n bc i (q - 1)%R) (Zseq lo len) bc = Ok bc'
      /\ (forall i, lo <= i < lo + Z.of_nat len -> bc' i = interior_center n i)
      /\ (forall i, ~ lo <= i < lo + Z.of_nat len -> bc' i = bc i).
Proof.
  intros Hn. induction len as [| len IH]; intros lo bc Hlo Hhi.
  - exists bc. simpl. split; [reflexivity | split; intros; [lia | reflexivity]].
  - simpl foldM. rewrite fdiv_ok by (apply not_0_IZR; lia). simpl.
    rewrite aset_in by lia. simpl.
    destruct (IH (lo + 1) (upd bc lo (2 * IZR (lo - 1) / IZR (n - 3) - 1)%R))
      as (bc' & Hrun & Hin & Hout); [lia | lia |].
    exists bc'. split; [exact Hrun | split].
    + intros i Hi. destruct (Z.eq_dec i lo) as [-> | Hne].
      * rewrite Hout by lia. now rewrite upd_same.
      * apply Hin. lia.
    + intros i Hi. rewrite Hout by lia. apply upd_other. lia.
Qed.

(** What [binParams] leaves in [_bincenters] and [_binstep] for four bins or
    more. *)
Lemma binParams_centers (n : Z) (bc : array R) :
  4 <= n <= 255 ->
  exists bc',
    binParams n bc = Ok (bc', (2 / IZR (n - 3))%R)
    /\ bc' 0 = (-1)%R
    /\ bc' (n - 1) = 1%R
    /\ (forall i, 1 <= i <= n - 2 -> bc' i = interior_center n i).
Proof.
  intros Hn. unfold binParams.
  rewrite aset_in by lia. cbn [bind].
  rewrite aset_in by lia. cbn [bind].
  assert (Hloop : forall body (s : array R),
             for_uchar loop_fuel (fun i => i <? n - 1) body 1 s
             = foldM body (Zseq 1 (Z.to_nat (n - 2 + 1 - 1))) s).
  { intros body s. apply (for_uchar_foldM (fun i => i <? n - 1) (n - 2)).
    - intros j. apply eq_true_iff_eq. rewrite Z.ltb_lt, Z.leb_le. lia.
    - lia.
    - lia.
    - unfold loop_fuel. lia. }
  rewrite Hloop.
  destruct (binParams_loop n (Z.to_nat (n - 2 + 1 - 1)) ltac:(lia) 1
              (upd (upd bc 0 (-1)%R) (n - 1) 1%R) ltac:(lia) ltac:(lia))
    as (bc' & Hrun & Hin & Hout).
  rewrite Hrun. simpl. rewrite fdiv_ok by (apply not_0_IZR; lia). simpl.
  exists bc'. split; [reflexivity | repeat split].
  - rewrite Hout by lia. rewrite upd_other by lia. apply upd_same.
  - rewrite Hout by lia. apply upd_same.
  - intros i Hi. apply Hin. lia.
Qed.

(** C10.  [binCenter] answers for every unsigned bin index: an index at or
    beyond [_histBins] yields 0 without touching [_bincenters], an index
    below [_histBins] yields the stored center. *)
Theorem binCenter_total (n : Z) (g : fusionData) (binindex : Z) :
  0 <= binindex ->
  exists c, binCenter n g binindex = Ok c
    /\ (n <= binindex -> c = 0%R)
    /\ (binindex < n -> c = _bincenters g binindex).
Proof.
  intros Hidx. unfold binCenter.
  destruct (Z.ltb_spec binindex n) as [Hlt | Hge].
  - exists (_bincenters g binindex). rewrite aget_in by lia.
    split; [reflexivity | split; [lia | reflexivity]].
  - exists 0%R. split; [reflexivity | split; [reflexivity | lia]].
Qed.

Lemma binCenter_total_witness :
  0 <= 7 /\
  exists c, binCenter 4 (uniform_store 1 1 1 voxel0) 7 = Ok c
    /\ (4 <= 7 -> c = 0%R)
    /\ (7 < 4 -> c = _bincenters (uniform_store 1 1 1 voxel0) 7).
Proof.
  split; [lia | apply (binCenter_total 4 (uniform_store 1 1 1 voxel0) 7); lia].
Defined.

Lemma binCenter_stored (n : Z) (g : fusionData) (i : Z) :
  0 <= i < n -> binCenter n g i = Ok (_bincenters g i).
Proof.
  intros Hi. unfold binCenter.
  destruct (Z.ltb_spec i n); [now rewrite aget_in by lia | lia].
Qed.

(** With two bins [binParams] divides by -1 only. *)
Lemma binParams_two_bins (bc : array R) :
  binParams 2 bc = Ok (upd (upd bc 0 (-1)%R) 1 1%R, (2 / -1)%R).
Proof.
  unfold binParams. rewrite aset_in by lia. cbn [bind].
  rewrite aset_in by lia. cbn [bind].
  change (2 - 1) with 1. change (2 - 3) with (-1).
  unfold loop_fuel. rewrite for_uchar_step.
  change (1 <? 1) with false. cbn [bind].
  now rewrite fdiv_ok by lra.
Qed.

(** C6.  With three bins [binParams] divides by [float(_histBins - 3)],
    which is zero: the first turn of its loop computes
    [2.f * float(0) / float(0)].  Every construction of a three-bin store
    runs into that division. *)
Theorem binParams_three_bins (bc : array R) :
  binParams 3 bc = DivByZero
  /\ forall w h d mem pitch spitch, construct 3 w h d mem pitch spitch bc = DivByZero.
Proof.
  assert (Hparams : binParams 3 bc = DivByZero).
  { unfold binParams. rewrite aset_in by lia. cbn [bind].
    rewrite aset_in by lia. cbn [bind].
    change (3 - 3) with 0. change (3 - 1) with 2.
    unfold loop_fuel. rewrite for_uchar_step.
    change (1 <? 2) with true. cbv beta iota.
    now rewrite fdiv_zero. }
  split; [exact Hparams |].
  intros w h d mem pitch spitch. unfold construct. now rewrite Hparams.
Qed.

Lemma construct_centers (n w h d : Z) (mem : Z -> fusionvoxel) (pitch spitch : Z)
  (bc : array R) :
  4 <= n <= 255 ->
  exists g,
    construct n w h d mem pitch spitch bc = Ok g
    /\ binStep g = (2 / IZR (n - 3))%R
    /\ _bincenters g 0 = (-1)%R
    /\ _bincenters g (n - 1) = 1%R
    /\ (forall i, 1 <= i <= n - 2 -> _bincenters g i = interior_center n i).
Proof.
  intros Hn. destruct (binParams_centers n bc Hn) as (bc' & Hrun & H0 & Hlast & Hint).
  unfold construct. rewrite Hrun. cbn [bind].
  eexists. split; [reflexivity |]. cbn. auto.
Qed.

Lemma interior_center_first (n : Z) : 4 <= n -> interior_center n 1 = (-1)%R.
Proof.
  intros Hn. unfold interior_center. change (1 - 1) with 0.
  assert (IZR (n - 3) <> 0%R) by (apply not_0_IZR; lia). field. assumption.
Qed.

Lemma interior_center_last (n : Z) : 4 <= n -> interior_center n (n - 2) = 1%R.
Proof.
  intros Hn. unfold interior_center. replace (n - 2 - 1) with (n - 3) by lia.
  assert (IZR (n - 3) <> 0%R) by (apply not_0_IZR; lia). field. assumption.
Qed.

Lemma interior_center_lt (n i j : Z) :
  4 <= n -> i < j -> (interior_center n i < interior_center n j)%R.
Proof.
  intros Hn Hij. unfold interior_center.
  assert (Hpos : (0 < IZR (n - 3))%R) by (apply IZR_lt; lia).
  assert (Hlt : (IZR (i - 1) < IZR (j - 1))%R) by (apply IZR_lt; lia).
  apply Rplus_lt_compat_r. apply Rmult_lt_compat_r.
  - now apply Rinv_0_lt_compat.
  - lra.
Qed.

Lemma interior_center_le (n i j : Z) :
  4 <= n -> i <= j -> (interior_center n i <= interior_center n j)%R.
Proof.
  intros Hn Hij. destruct (Z.eq_dec i j) as [-> | Hne].
  - apply Rle_refl.
  - apply Rlt_le. apply interior_center_lt; lia.
Qed.

Lemma center_bounds (n : Z) (g : fusionData) :
  4 <= n ->
  _bincenters g 0 = (-1)%R ->
  _bincenters g (n - 1) = 1%R ->
  (forall i, 1 <= i <= n - 2 -> _bincenters g i = interior_center n i) ->
  forall i, 0 <= i < n -> (-1 <= _bincenters g i <= 1)%R.
Proof.
  intros Hn H0 Hlast Hint i Hi.
  destruct (Z.eq_dec i 0) as [-> | Hi0]; [rewrite H0; lra |].
  destruct (Z.eq_dec i (n - 1)) as [-> | Hil]; [rewrite Hlast; lra |].
  rewrite Hint by lia.
  split.
  - rewrite <- (interior_center_first n Hn). apply interior_center_le; lia.
  - rewrite <- (interior_center_last n Hn). apply interior_center_le; lia.
Qed.

(** C5 as stated fails: with four bins the centers are -1, -1, 1, 1, so
    bins 0 and 1 have the same center. *)
Lemma centers_not_strictly_increasing :
  exists g,
    construct 4 1 1 1 (fun _ => voxel0) 0 0 (fun _ => 0%R) = Ok g
    /\ binCenter 4 g 0 = Ok (-1)%R
    /\ binCenter 4 g 1 = Ok (-1)%R
    /\ ~ centers_strictly_increasing 4 g.
Proof.
  destruct (construct_centers 4 1 1 1 (fun _ => voxel0) 0 0 (fun _ => 0%R) ltac:(lia))
    as (g & Hg & _ & H0 & _ & Hint).
  assert (H1 : _bincenters g 1 = (-1)%R).
  { rewrite Hint by lia. apply interior_center_first. lia. }
  assert (B0 : binCenter 4 g 0 = Ok (-1)%R) by (rewrite binCenter_stored by lia; now rewrite H0).
  assert (B1 : binCenter 4 g 1 = Ok (-1)%R) by (rewrite binCenter_stored by lia; now rewrite H1).
  exists g. repeat split; try assumption.
  intros Hstrict.
  specialize (Hstrict 0 1 (-1)%R (-1)%R ltac:(lia) ltac:(lia) ltac:(lia) B0 B1). lra.
Qed.

(** C5, amended.  For [4 <= _histBins] a constructed store has
    [binCenter(0) = -1], [binCenter(_histBins - 1) = 1] and
    [binStep() = 2 / (_histBins - 3)]; the interior centers run from
    [binCenter(1) = -1] to [binCenter(_histBins - 2) = 1] and are strictly
    increasing; over all bins the centers are non-decreasing. *)
Theorem bin_parameters (n w h d : Z) (mem : Z -> fusionvoxel) (pitch spitch : Z)
  (bc : array R) :
  4 <= n <= 255 ->
  exists g,
    construct n w h d mem pitch spitch bc = Ok g
    /\ binCenter n g 0 = Ok (-1)%R
    /\ binCenter n g (n - 1) = Ok 1%R
    /\ binCenter n g 1 = Ok (-1)%R
    /\ binCenter n g (n - 2) = Ok 1%R
    /\ (forall i j ci cj, 1 <= i -> i < j -> j <= n - 2 ->
          binCenter n g i = Ok ci -> binCenter n g j = Ok cj -> (ci < cj)%R)
    /\ centers_non_decreasing n g
    /\ binStep g = (2 / IZR (n - 3))%R.
Proof.
  intros Hn.
  destruct (construct_centers n w h d mem pitch spitch bc Hn)
    as (g & Hg & Hstep & H0 & Hlast & Hint).
  exists g. split; [exact Hg |].
  split; [rewrite binCenter_stored by lia; now rewrite H0 |].
  split; [rewrite binCenter_stored by lia; now rewrite Hlast |].
  split; [rewrite binCenter_stored by lia; rewrite Hint by lia;
          now rewrite interior_center_first by lia |].
  split; [rewrite binCenter_stored by lia; rewrite Hint by lia;
          now rewrite interior_center_last by lia |].
  split; [| split; [| exact Hstep]].
  - intros i j ci cj Hi Hij Hj Bi Bj.
    rewrite binCenter_stored in Bi by lia. rewrite binCenter_stored in Bj by lia.
    injection Bi as <-. injection Bj as <-.
    rewrite !Hint by lia. apply interior_center_lt; lia.
  - intros i j ci cj Hi Hij Hj Bi Bj.
    rewrite binCenter_stored in Bi by lia. rewrite binCenter_stored in Bj by lia.
    injection Bi as <-. injection Bj as <-.
    pose proof (center_bounds n g ltac:(lia) H0 Hlast Hint) as Hb.
    destruct (Z.eq_dec i 0) as [-> | Hi0].
    { rewrite H0. apply (Hb j). lia. }
    destruct (Z.eq_dec j (n - 1)) as [-> | Hjl].
    { rewrite Hlast. apply (Hb i). lia. }
    rewrite !Hint by lia. apply interior_center_le; lia.
Qed.

Lemma bin_parameters_witness :
  4 <= 10 <= 255 /\
  exists g,
    construct 10 4 4 4 (fun _ => voxel0) 0 0 (fun _ => 0%R) = Ok g
    /\ binCenter 10 g 0 = Ok (-1)%R
    /\ binCenter 10 g (10 - 1) = Ok 1%R
    /\ binCenter 10 g 1 = Ok (-1)%R
    /\ binCenter 10 g (10 - 2) = Ok 1%R
    /\ (forall i j ci cj, 1 <= i -> i < j -> j <= 10 - 2 ->
          binCenter 10 g i = Ok ci -> binCenter 10 g j = Ok cj -> (ci < cj)%R)
    /\ centers_non_decreasing 10 g
    /\ binStep g = (2 / IZR (10 - 3))%R.
Proof.
  split; [lia | apply (bin_parameters 10 4 4 4 (fun _ => voxel0) 0 0 (fun _ => 0%R)); lia].
Defined.

(** ** Difference operators at the faces of the lattice *)

Lemma size_t_pred (w : Z) : 0 < w < 2 ^ 64 -> size_t (w - 1) = w - 1.
Proof. intros H. unfold size_t. apply Z.mod_small. lia. Qed.

Lemma gradUFwd_x (g : fusionData) (x y z : Z) :
  Float3.x (gradUFwd g x y z)
  = if x <? size_t (_w g - 1) then (u g (x + 1) y z - u g x y z)%R else 0%R.
Proof.
  unfold gradUFwd.
  destruct (x <? size_t (_w g - 1)), (y <? size_t (_h g - 1)), (z <? size_t (_d g - 1));
    reflexivity.
Qed.

Lemma gradUFwd_y (g : fusionData) (x y z : Z) :
  Float3.y (gradUFwd g x y z)
  = if y <? size_t (_h g - 1) then (u g x (y + 1) z - u g x y z)%R else 0%R.
Proof.
  unfold gradUFwd.
  destruct (x <? size_t (_w g - 1)), (y <? size_t (_h g - 1)), (z <? size_t (_d g - 1));
    reflexivity.
Qed.

Lemma gradUFwd_z (g : fusionData) (x y z : Z) :
  Float3.z (gradUFwd g x y z)
  = if z <? size_t (_d g - 1) then (u g x y (z + 1) - u g x y z)%R else 0%R.
Proof.
  unfold gradUFwd.
  destruct (x <? size_t (_w g - 1)), (y <? size_t (_h g - 1)), (z <? size_t (_d g - 1));
    reflexivity.
Qed.

Lemma gradVFwd_x (g : fusionData) (x y z : Z) :
  Float3.x (gradVFwd g x y z)
  = if x <? size_t (_w g - 1) then (v g (x + 1) y z - v g x y z)%R else 0%R.
Proof.
  unfold gradVFwd.
  destruct (x <? size_t (_w g - 1)), (y <? size_t (_h g - 1)), (z <? size_t (_d g - 1));
    reflexivity.
Qed.

Lemma gradVFwd_y (g : fusionData) (x y z : Z) :
  Float3.y (gradVFwd g x y z)
  = if y <? size_t (_h g - 1) then (v g x (y + 1) z - v g x y z)%R else 0%R.
Proof.
  unfold gradVFwd.
  destruct (x <? size_t (_w g - 1)), (y <? size_t (_h g - 1)), (z <? size_t (_d g - 1));
    reflexivity.
Qed.

Lemma gradVFwd_z (g : fusionData) (x y z : Z) :
  Float3.z (gradVFwd g x y z)
  = if z <? size_t (_d g - 1) then (v g x y (z + 1) - v g x y z)%R else 0%R.
Proof.
  unfold gradVFwd.
  destruct (x <? size_t (_w g - 1)), (y <? size_t (_h g - 1)), (z <? size_t (_d g - 1));
    reflexivity.
Qed.

Lemma divPBwd_terms (g : fusionData) (x y z : Z) :
  divPBwd g x y z
  = (Float3.x (p g x y z) + Float3.y (p g x y z) + Float3.z (p g x y z)
     - backward_term x (Float3.x (p g (x - 1) y z))
     - backward_term y (Float3.y (p g x (y - 1) z))
     - backward_term z (Float3.z (p g x y (z - 1))))%R.
Proof.
  unfold divPBwd, backward_term.
  destruct (0 <? x), (0 <? y), (0 <? z); ring.
Qed.

Lemma last_index_test (w k : Z) : 0 <= k -> w < 2 ^ 64 -> k = w - 1 -> (k <? size_t (w - 1)) = false.
Proof.
  intros Hk Hw ->. rewrite size_t_pred by lia. apply Z.ltb_irrefl.
Qed.

(** C4.  At the last index of an axis the forward gradient of [u], and of
    [v], has a zero component on that axis whatever the fields hold; at
    index 0 of an axis [divPBwd] is the sum of the voxel's components minus
    the backward terms of the two other axes, that is, the value obtained
    with 0 in place of the missing neighbour's component. *)
Theorem boundary_terms (g : fusionData) (x y z : Z) :
  (0 <= x -> _w g < 2 ^ 64 -> x = _w g - 1 ->
     Float3.x (gradUFwd g x y z) = 0%R /\ Float3.x (gradVFwd g x y z) = 0%R)
  /\ (0 <= y -> _h g < 2 ^ 64 -> y = _h g - 1 ->
     Float3.y (gradUFwd g x y z) = 0%R /\ Float3.y (gradVFwd g x y z) = 0%R)
  /\ (0 <= z -> _d g < 2 ^ 64 -> z = _d g - 1 ->
     Float3.z (gradUFwd g x y z) = 0%R /\ Float3.z (gradVFwd g x y z) = 0%R)
  /\ (x = 0 ->
     divPBwd g x y z
     = (Float3.x (p g x y z) + Float3.y (p g x y z) + Float3.z (p g x y z)
        - 0
        - backward_term y (Float3.y (p g x (y - 1) z))
        - backward_term z (Float3.z (p g x y (z - 1))))%R)
  /\ (y = 0 ->
     divPBwd g x y z
     = (Float3.x (p g x y z) + Float3.y (p g x y z) + Float3.z (p g x y z)
        - backward_term x (Float3.x (p g (x - 1) y z))
        - 0
        - backward_term z (Float3.z (p g x y (z - 1))))%R)
  /\ (z = 0 ->
     divPBwd g x y z
     = (Float3.x (p g x y z) + Float3.y (p g x y z) + Float3.z (p g x y z)
        - backward_term x (Float3.x (p g (x - 1) y z))
        - backward_term y (Float3.y (p g x (y - 1) z))
        - 0)%R).
Proof.
  repeat split.
  - rewrite gradUFwd_x. now rewrite last_index_test.
  - rewrite gradVFwd_x. now rewrite last_index_test.
  - rewrite gradUFwd_y. now rewrite last_index_test.
  - rewrite gradVFwd_y. now rewrite last_index_test.
  - rewrite gradUFwd_z. now rewrite last_index_test.
  - rewrite gradVFwd_z. now rewrite last_index_test.
  - intros ->. rewrite divPBwd_terms. reflexivity.
  - intros ->. rewrite divPBwd_terms. reflexivity.
  - intros ->. rewrite divPBwd_terms. reflexivity.
Qed.

Lemma boundary_terms_witness :
  let g := uniform_store 1 1 1 (Voxel.make 1 1 (make_float3 1 0 0) hist0) in
  (Float3.x (gradUFwd g 0 0 0) = 0%R /\ Float3.x (gradVFwd g 0 0 0) = 0%R)
  /\ (Float3.y (gradUFwd g 0 0 0) = 0%R /\ Float3.y (gradVFwd g 0 0 0) = 0%R)
  /\ (Float3.z (gradUFwd g 0 0 0) = 0%R /\ Float3.z (gradVFwd g 0 0 0) = 0%R)
  /\ divPBwd g 0 0 0
     = (Float3.x (p g 0 0 0) + Float3.y (p g 0 0 0) + Float3.z (p g 0 0 0)
        - 0
        - backward_term 0 (Float3.y (p g 0 (0 - 1) 0))
        - backward_term 0 (Float3.z (p g 0 0 (0 - 1))))%R.
Proof.
  intros g.
  destruct (boundary_terms g 0 0 0) as (Hx & Hy & Hz & Dx & _ & _).
  split; [apply Hx; [lia | reflexivity | reflexivity] |].
  split; [apply Hy; [lia | reflexivity | reflexivity] |].
  split; [apply Hz; [lia | reflexivity | reflexivity] |].
  apply Dx. reflexivity.
Defined.

(** ** The adjoint relation *)

Lemma sum_upto_ext (n : nat) (f f' : Z -> R) :
  (forall k, 0 <= k < Z.of_nat n -> f k = f' k) -> sum_upto n f = sum_upto n f'.
Proof.
  induction n as [| n IH]; intros H; simpl.
  - reflexivity.
  - rewrite IH by (intros k Hk; apply H; lia). rewrite H by lia. reflexivity.
Qed.

Lemma sum_upto_zero (n : nat) : sum_upto n (fun _ => 0%R) = 0%R.
Proof. induction n as [| n IH]; simpl; [reflexivity | rewrite IH; ring]. Qed.

Lemma sum_upto_plus (n : nat) (f f' : Z -> R) :
  sum_upto n (fun k => (f k + f' k)%R) = (sum_upto n f + sum_upto n f')%R.
Proof. induction n as [| n IH]; simpl; [ring | rewrite IH; ring]. Qed.

Lemma sum_upto_opp (n : nat) (f : Z -> R) :
  sum_upto n (fun k => (- f k)%R) = (- sum_upto n f)%R.
Proof. induction n as [| n IH]; simpl; [ring | rewrite IH; ring]. Qed.

Lemma sum_upto_swap (n m : nat) (F : Z -> Z -> R) :
  sum_upto n (fun i => sum_upto m (fun j => F i j))
  = sum_upto m (fun j => sum_upto n (fun i => F i j)).
Proof.
  induction n as [| n IH]; simpl.
  - now rewrite sum_upto_zero.
  - rewrite IH. now rewrite <- sum_upto_plus.
Qed.

Lemma backward_term_pos (k : Z) (c : R) : 0 < k -> backward_term k c = c.
Proof. intros H. unfold backward_term. apply Z.ltb_lt in H. now rewrite H. Qed.

(** Summation by parts along one line of the lattice, before the boundary
    condition is used. *)
Lemma sum_by_parts_open (a b : Z -> R) (m : nat) :
  sum_upto m (fun k => ((a (k + 1)%Z - a k) * b k)%R)
  = (- sum_upto (S m) (fun k => (a k * (b k - backward_term k (b (k - 1)%Z)))%R)
     + a (Z.of_nat m) * b (Z.of_nat m))%R.
Proof.
  induction m as [| m IH].
  - simpl. unfold backward_term. simpl. ring.
  - change (sum_upto (S m) (fun k => ((a (k + 1)%Z - a k) * b k)%R))
      with (sum_upto m (fun k => ((a (k + 1)%Z - a k) * b k)%R)
            + (a (Z.of_nat m + 1)%Z - a (Z.of_nat m)) * b (Z.of_nat m))%R.
    rewrite IH.
    change (sum_upto (S (S m)) (fun k => (a k * (b k - backward_term k (b (k - 1)%Z)))%R))
      with (sum_upto (S m) (fun k => (a k * (b k - backward_term k (b (k - 1)%Z)))%R)
            + a (Z.of_nat (S m))
              * (b (Z.of_nat (S m))
                 - backward_term (Z.of_nat (S m)) (b (Z.of_nat (S m) - 1)%Z)))%R.
    rewrite backward_term_pos by lia.
    replace (Z.of_nat (S m) - 1) with (Z.of_nat m) by lia.
    replace (Z.of_nat m + 1) with (Z.of_nat (S m)) by lia.
    ring.
Qed.

(** Summation by parts along a line of [n] voxels whose last dual component
    is zero. *)
Lemma sum_by_parts (a b : Z -> R) (n : nat) :
  ((0 < n)%nat -> b (Z.of_nat n - 1) = 0%R) ->
  sum_upto n (fun k => ((if k <? Z.of_nat n - 1 then a (k + 1)%Z - a k else 0) * b k)%R)
  = (- sum_upto n (fun k => (a k * (b k - backward_term k (b (k - 1)%Z)))%R))%R.
Proof.
  destruct n as [| m]; intros Hb.
  - simpl. ring.
  - replace (Z.of_nat (S m) - 1) with (Z.of_nat m) in * by lia.
    change (sum_upto (S m)
              (fun k => ((if k <? Z.of_nat m then a (k + 1)%Z - a k else 0) * b k)%R))
      with (sum_upto m
              (fun k => ((if k <? Z.of_nat m then a (k + 1)%Z - a k else 0) * b k)%R)
            + (if Z.of_nat m <? Z.of_nat m then a (Z.of_nat m + 1)%Z - a (Z.of_nat m) else 0)
              * b (Z.of_nat m))%R.
    rewrite Z.ltb_irrefl.
    rewrite (sum_upto_ext m _ (fun k => ((a (k + 1)%Z - a k) * b k)%R)).
    + rewrite sum_by_parts_open. rewrite Hb by lia. ring.
    + intros k Hk. replace (k <? Z.of_nat m) with true by (symmetry; apply Z.ltb_lt; lia).
      reflexivity.
Qed.

Lemma sum3_ext (nw nh nd : nat) (F F' : Z -> Z -> Z -> R) :
  (forall x y z, 0 <= x < Z.of_nat nw -> 0 <= y < Z.of_nat nh -> 0 <= z < Z.of_nat nd ->
     F x y z = F' x y z) ->
  sum3 nw nh nd F = sum3 nw nh nd F'.
Proof.
  intros H. unfold sum3.
  apply sum_upto_ext. intros z Hz.
  apply sum_upto_ext. intros y Hy.
  apply sum_upto_ext. intros x Hx. now apply H.
Qed.

Lemma sum3_plus (nw nh nd : nat) (F F' : Z -> Z -> Z -> R) :
  sum3 nw nh nd (fun x y z => (F x y z + F' x y z)%R)
  = (sum3 nw nh nd F + sum3 nw nh nd F')%R.
Proof.
  unfold sum3. rewrite <- sum_upto_plus.
  apply sum_upto_ext. intros z _. rewrite <- sum_upto_plus.
  apply sum_upto_ext. intros y _. now rewrite <- sum_upto_plus.
Qed.

Lemma sum3_swap_xy (nw nh nd : nat) (F : Z -> Z -> Z -> R) :
  sum3 nw nh nd F = sum3 nh nw nd (fun y x z => F x y z).
Proof.
  unfold sum3. apply sum_upto_ext. intros z _.
  apply (sum_upto_swap nh nw (fun y x => F x y z)).
Qed.

Lemma sum3_swap_yz (nw nh nd : nat) (F : Z -> Z -> Z -> R) :
  sum3 nw nh nd F = sum3 nw nd nh (fun x z y => F x y z).
Proof.
  unfold sum3.
  apply (sum_upto_swap nd nh (fun z y => sum_upto nw (fun x => F x y z))).
Qed.

(** The adjoint relation along the first axis of a lattice, for a scalar
    field [U] and one component [P] of a vector field that vanishes on the
    upper face of that axis. *)
Lemma adjoint_first_axis (nw nh nd : nat) (U P : Z -> Z -> Z -> R) :
  (forall y z, 0 <= y < Z.of_nat nh -> 0 <= z < Z.of_nat nd -> (0 < nw)%nat ->
     P (Z.of_nat nw - 1) y z = 0%R) ->
  sum3 nw nh nd
    (fun x y z => ((if x <? Z.of_nat nw - 1 then U (x + 1)%Z y z - U x y z else 0) * P x y z)%R)
  = (- sum3 nw nh nd
         (fun x y z => (U x y z * (P x y z - backward_term x (P (x - 1)%Z y z)))%R))%R.
Proof.
  intros Hface. unfold sum3.
  rewrite <- sum_upto_opp. apply sum_upto_ext. intros z Hz.
  rewrite <- sum_upto_opp. apply sum_upto_ext. intros y Hy.
  apply (sum_by_parts (fun x => U x y z) (fun x => P x y z) nw).
  intros Hn. now apply Hface.
Qed.

Lemma adjoint_second_axis (nw nh nd : nat) (U P : Z -> Z -> Z -> R) :
  (forall x z, 0 <= x < Z.of_nat nw -> 0 <= z < Z.of_nat nd -> (0 < nh)%nat ->
     P x (Z.of_nat nh - 1) z = 0%R) ->
  sum3 nw nh nd
    (fun x y z => ((if y <? Z.of_nat nh - 1 then U x (y + 1)%Z z - U x y z else 0) * P x y z)%R)
  = (- sum3 nw nh nd
         (fun x y z => (U x y z * (P x y z - backward_term y (P x (y - 1)%Z z)))%R))%R.
Proof.
  intros Hface.
  rewrite sum3_swap_xy. rewrite (sum3_swap_xy nw nh nd).
  apply (adjoint_first_axis nh nw nd (fun y x z => U x y z) (fun y x z => P x y z)).
  intros x z Hx Hz Hn. now apply Hface.
Qed.

Lemma adjoint_third_axis (nw nh nd : nat) (U P : Z -> Z -> Z -> R) :
  (forall x y, 0 <= x < Z.of_nat nw -> 0 <= y < Z.of_nat nh -> (0 < nd)%nat ->
     P x y (Z.of_nat nd - 1) = 0%R) ->
  sum3 nw nh nd
    (fun x y z => ((if z <? Z.of_nat nd - 1 then U x y (z + 1)%Z - U x y z else 0) * P x y z)%R)
  = (- sum3 nw nh nd
         (fun x y z => (U x y z * (P x y z - backward_term z (P x y (z - 1)%Z)))%R))%R.
Proof.
  intros Hface.
  rewrite sum3_swap_yz, sum3_swap_xy.
  rewrite (sum3_swap_yz nw nh nd), (sum3_swap_xy nw nd nh).
  apply (adjoint_first_axis nd nw nh (fun z x y => U x y z) (fun z x y => P x y z)).
  intros x y Hx Hy Hn. now apply Hface.
Qed.

(** C3 as stated fails: on a store of one voxel with [u = 1] and
    [p = (1, 0, 0)] the gradient is zero, so the left-hand sum is 0, while
    [divPBwd] is 1 and the right-hand side is -1. *)
Lemma adjoint_pair_fails :
  ~ adjoint_pair (uniform_store 1 1 1 (Voxel.make 1 1 (make_float3 1 0 0) hist0)).
Proof.
  unfold adjoint_pair, sum_voxels, sum3. vm_compute. lra.
Qed.

(** C3, amended.  When the dual field has a zero x component on the face
    [x = _w - 1], a zero y component on the face [y = _h - 1] and a zero z
    component on the face [z = _d - 1], the sum over all voxels of
    [gradUFwd . p] is the negated sum over all voxels of [u * divPBwd]. *)
Theorem adjoint_pair_closed_faces (g : fusionData) :
  0 <= _w g < 2 ^ 64 -> 0 <= _h g < 2 ^ 64 -> 0 <= _d g < 2 ^ 64 ->
  closed_upper_faces g ->
  adjoint_pair g.
Proof.
  intros Hw Hh Hd (Fx & Fy & Fz).
  unfold adjoint_pair, sum_voxels.
  set (nw := Z.to_nat (_w g)). set (nh := Z.to_nat (_h g)). set (nd := Z.to_nat (_d g)).
  assert (Ew : Z.of_nat nw = _w g) by (subst nw; lia).
  assert (Eh : Z.of_nat nh = _h g) by (subst nh; lia).
  assert (Ed : Z.of_nat nd = _d g) by (subst nd; lia).
  pose (U := fun x y z => u g x y z).
  pose (PX := fun x y z => Float3.x (p g x y z)).
  pose (PY := fun x y z => Float3.y (p g x y z)).
  pose (PZ := fun x y z => Float3.z (p g x y z)).
  pose (GX := fun x y z =>
               ((if x <? Z.of_nat nw - 1 then U (x + 1)%Z y z - U x y z else 0) * PX x y z)%R).
  pose (GY := fun x y z =>
               ((if y <? Z.of_nat nh - 1 then U x (y + 1)%Z z - U x y z else 0) * PY x y z)%R).
  pose (GZ := fun x y z =>
               ((if z <? Z.of_nat nd - 1 then U x y (z + 1)%Z - U x y z else 0) * PZ x y z)%R).
  pose (DX := fun x y z => (U x y z * (PX x y z - backward_term x (PX (x - 1)%Z y z)))%R).
  pose (DY := fun x y z => (U x y z * (PY x y z - backward_term y (PY x (y - 1)%Z z)))%R).
  pose (DZ := fun x y z => (U x y z * (PZ x y z - backward_term z (PZ x y (z - 1)%Z)))%R).
  rewrite (sum3_ext nw nh nd _ (fun x y z => (GX x y z + GY x y z + GZ x y z)%R)).
  2:{ intros x y z Hx Hy Hz. unfold dot.
      rewrite gradUFwd_x, gradUFwd_y, gradUFwd_z.
      rewrite !size_t_pred by lia. rewrite <- Ew, <- Eh, <- Ed. reflexivity. }
  rewrite (sum3_ext nw nh nd (fun x y z => (u g x y z * divPBwd g x y z)%R)
             (fun x y z => (DX x y z + DY x y z + DZ x y z)%R)).
  2:{ intros x y z _ _ _. rewrite divPBwd_terms. subst DX DY DZ U PX PY PZ. cbv beta. ring. }
  rewrite (sum3_plus nw nh nd (fun x y z => (GX x y z + GY x y z)%R) GZ).
  rewrite (sum3_plus nw nh nd GX GY).
  rewrite (sum3_plus nw nh nd (fun x y z => (DX x y z + DY x y z)%R) DZ).
  rewrite (sum3_plus nw nh nd DX DY).
  assert (HX : sum3 nw nh nd GX = (- sum3 nw nh nd DX)%R).
  { apply (adjoint_first_axis nw nh nd U PX).
    intros y z Hy Hz Hn. subst PX. cbv beta. rewrite Ew. apply Fx; lia. }
  assert (HY : sum3 nw nh nd GY = (- sum3 nw nh nd DY)%R).
  { apply (adjoint_second_axis nw nh nd U PY).
    intros x z Hx Hz Hn. subst PY. cbv beta. rewrite Eh. apply Fy; lia. }
  assert (HZ : sum3 nw nh nd GZ = (- sum3 nw nh nd DZ)%R).
  { apply (adjoint_third_axis nw nh nd U PZ).
    intros x y Hx Hy Hn. subst PZ. cbv beta. rewrite Ed. apply Fz; lia. }
  rewrite HX, HY, HZ. ring.
Qed.

Lemma adjoint_pair_closed_faces_witness :
  0 <= _w line_store < 2 ^ 64 /\ 0 <= _h line_store < 2 ^ 64 /\ 0 <= _d line_store < 2 ^ 64
  /\ closed_upper_faces line_store
  /\ adjoint_pair line_store.
Proof.
  assert (Hw : 0 <= _w line_store < 2 ^ 64) by (cbn; lia).
  assert (Hh : 0 <= _h line_store < 2 ^ 64) by (cbn; lia).
  assert (Hd : 0 <= _d line_store < 2 ^ 64) by (cbn; lia).
  assert (Hf : closed_upper_faces line_store).
  { unfold closed_upper_faces. cbn [_w _h _d line_store].
    split; [| split].
    - intros y z Hy Hz. replace y with 0 by lia. replace z with 0 by lia. reflexivity.
    - intros x z Hx Hz. replace z with 0 by lia.
      destruct (Z.eq_dec x 0) as [-> | Hx0]; [reflexivity |].
      replace x with 1 by lia. reflexivity.
    - intros x y Hx Hy. replace y with 0 by lia.
      destruct (Z.eq_dec x 0) as [-> | Hx0]; [reflexivity |].
      replace x with 1 by lia. reflexivity. }
  split; [exact Hw | split; [exact Hh | split; [exact Hd | split; [exact Hf |]]]].
  exact (adjoint_pair_closed_faces line_store Hw Hh Hd Hf).
Defined.

(** ** Projection onto the unit ball *)

Lemma sum_squares_nonneg (a b c : R) : (0 <= a * a + b * b + c * c)%R.
Proof. nra. Qed.

Lemma norm2_square (a : float3) :
  (norm2 a * norm2 a
   = Float3.x a * Float3.x a + Float3.y a * Float3.y a + Float3.z a * Float3.z a)%R.
Proof. unfold norm2. apply sqrt_sqrt. apply sum_squares_nonneg. Qed.

Lemma overflow_threshold_large : (2 < overflow_threshold)%R.
Proof. unfold overflow_threshold. apply IZR_lt. apply Z.ltb_lt. vm_compute. reflexivity. Qed.

Lemma fin_in_range (r : R) :
  (- overflow_threshold < r < overflow_threshold)%R -> fin r = Fin r.
Proof.
  intros [Hlo Hhi]. unfold fin.
  destruct (Rle_dec overflow_threshold r); [lra |].
  destruct (Rle_dec r (- overflow_threshold)); [lra | reflexivity].
Qed.

Lemma fin_overflow (r : R) : (overflow_threshold <= r)%R -> fin r = PInf.
Proof.
  intros H. unfold fin. destruct (Rle_dec overflow_threshold r); [reflexivity | contradiction].
Qed.

(** A non-negative exact result is kept or overflows to [+inf]. *)
Lemma fin_nonneg (r : R) :
  (0 <= r)%R ->
  (r < overflow_threshold /\ fin r = Fin r)%R \/ (overflow_threshold <= r /\ fin r = PInf)%R.
Proof.
  intros Hr. pose proof overflow_threshold_large as HT.
  destruct (Rle_lt_dec overflow_threshold r) as [Hge | Hlt].
  - right. split; [exact Hge | now apply fin_overflow].
  - left. split; [exact Hlt | apply fin_in_range; lra].
Qed.

Lemma of_float3_inj (a b : float3) : of_float3 a = of_float3 b -> a = b.
Proof.
  destruct a as [ax ay az], b as [bx by' bz]. unfold of_float3. cbn.
  intros E. injection E as -> -> ->. reflexivity.
Qed.

(** The computed squared norm of a vector of real components. *)
Lemma computed_sum_squares (a : float3) :
  xadd (xadd (xmul (Fin (Float3.x a)) (Fin (Float3.x a)))
             (xmul (Fin (Float3.y a)) (Fin (Float3.y a))))
       (xmul (Fin (Float3.z a)) (Fin (Float3.z a)))
  = if Rle_dec overflow_threshold (sum_squares a) then PInf else Fin (sum_squares a).
Proof.
  destruct a as [ax ay az]. unfold sum_squares. cbn [Float3.x Float3.y Float3.z xmul].
  assert (Hx : (0 <= ax * ax)%R) by nra.
  assert (Hy : (0 <= ay * ay)%R) by nra.
  assert (Hz : (0 <= az * az)%R) by nra.
  destruct (Rle_dec overflow_threshold (ax * ax + ay * ay + az * az)) as [Hov | Hin].
  - destruct (fin_nonneg _ Hx) as [[Bx ->] | [_ ->]];
      destruct (fin_nonneg _ Hy) as [[By ->] | [_ ->]];
      destruct (fin_nonneg _ Hz) as [[Bz ->] | [_ ->]]; cbn [xadd]; try reflexivity.
    + destruct (fin_nonneg (ax * ax + ay * ay) ltac:(lra)) as [[Bxy ->] | [_ ->]];
        cbn [xadd]; [| reflexivity].
      now apply fin_overflow.
    + destruct (fin_nonneg (ax * ax + ay * ay) ltac:(lra)) as [[Bxy ->] | [_ ->]];
        reflexivity.
  - assert (Hlt : (ax * ax + ay * ay + az * az < overflow_threshold)%R) by lra.
    pose proof overflow_threshold_large as HT.
    rewrite !fin_in_range by lra. cbn [xadd].
    rewrite (fin_in_range (ax * ax + ay * ay)) by lra. cbn [xadd].
    apply fin_in_range. lra.
Qed.

Lemma component_below_threshold (a b c : R) :
  (a * a + b * b + c * c < overflow_threshold)%R ->
  (- overflow_threshold < a < overflow_threshold)%R.
Proof.
  intros H. pose proof overflow_threshold_large as HT.
  destruct (Rle_lt_dec (a * a) 1) as [Hs | Hb]; split; nra.
Qed.

(** Below the overflow threshold the function returns [p / max(1, |p|)]. *)
Lemma projectUnitBall_value (a : float3) :
  (sum_squares a < overflow_threshold)%R ->
  projectUnitBall (of_float3 a) = Ok (of_float3 (unit_ball_projection a)).
Proof.
  intros Hlt. unfold projectUnitBall.
  change (Float3x.x (of_float3 a)) with (Fin (Float3.x a)).
  change (Float3x.y (of_float3 a)) with (Fin (Float3.y a)).
  change (Float3x.z (of_float3 a)) with (Fin (Float3.z a)).
  rewrite computed_sum_squares.
  destruct (Rle_dec overflow_threshold (sum_squares a)) as [Hov | _]; [lra |].
  assert (Hs : (0 <= sum_squares a)%R) by (unfold sum_squares; apply sum_squares_nonneg).
  unfold xsqrt. destruct (Rlt_dec (sum_squares a) 0) as [Hneg | _]; [lra |].
  change (sqrt (sum_squares a)) with (norm2 a). cbn [fmaxf].
  assert (Hm : (1 <= Rmax 1 (norm2 a))%R) by apply Rmax_l.
  assert (Hq : forall c, (- overflow_threshold < c < overflow_threshold)%R ->
                 xdiv (Fin c) (Fin (Rmax 1 (norm2 a))) = Ok (Fin (c / Rmax 1 (norm2 a)))).
  { intros c Hc. unfold xdiv.
    destruct (Req_dec_T (Rmax 1 (norm2 a)) 0) as [E | _]; [lra |].
    f_equal. apply fin_in_range.
    assert (Hinv : (0 < / Rmax 1 (norm2 a) <= 1)%R).
    { split; [apply Rinv_0_lt_compat; lra |].
      apply Rle_trans with (/ 1)%R; [apply Rinv_le_contravar; lra | rewrite Rinv_1; lra]. }
    unfold Rdiv. destruct Hinv as [Hpos Hone].
    destruct (Rle_lt_dec 0 c) as [Hc0 | Hc0].
    - assert (0 <= c * / Rmax 1 (norm2 a) <= c * 1)%R; [| lra].
      split; [apply Rmult_le_pos; lra | apply Rmult_le_compat_l; lra].
    - assert (- c * / Rmax 1 (norm2 a) <= - c * 1 /\ 0 <= - c * / Rmax 1 (norm2 a))%R; [| lra].
      split; [apply Rmult_le_compat_l; lra | apply Rmult_le_pos; lra]. }
  destruct a as [ax ay az]. unfold sum_squares in Hlt. cbn [Float3.x Float3.y Float3.z] in *.
  unfold float3_div, of_float3. cbn [Float3x.x Float3x.y Float3x.z Float3.x Float3.y Float3.z].
  rewrite (Hq ax) by (apply (component_below_threshold ax ay az); lra). cbn [bind].
  rewrite (Hq ay) by (apply (component_below_threshold ay ax az); lra). cbn [bind].
  rewrite (Hq az) by (apply (component_below_threshold az ax ay); lra). cbn [bind].
  reflexivity.
Qed.

(** At or beyond the overflow threshold the computed norm is [+inf] and the
    function returns the zero vector. *)
Lemma projectUnitBall_overflow (a : float3) :
  (overflow_threshold <= sum_squares a)%R ->
  projectUnitBall (of_float3 a) = Ok (of_float3 (make_float3 0 0 0)).
Proof.
  intros Hov. unfold projectUnitBall.
  change (Float3x.x (of_float3 a)) with (Fin (Float3.x a)).
  change (Float3x.y (of_float3 a)) with (Fin (Float3.y a)).
  change (Float3x.z (of_float3 a)) with (Fin (Float3.z a)).
  rewrite computed_sum_squares.
  destruct (Rle_dec overflow_threshold (sum_squares a)) as [_ | N]; [| contradiction].
  reflexivity.
Qed.

Lemma unit_ball_projection_inside (a : float3) :
  (norm2 a <= 1)%R -> unit_ball_projection a = a.
Proof.
  intros Hle. unfold unit_ball_projection. rewrite Rmax_left by assumption.
  destruct a as [ax ay az]. cbn [Float3.x Float3.y Float3.z]. f_equal; field.
Qed.

Lemma unit_ball_projection_outside (a : float3) :
  (1 < norm2 a)%R ->
  unit_ball_projection a = scale (/ norm2 a) a /\ norm2 (scale (/ norm2 a) a) = 1%R.
Proof.
  intros Hgt. assert (Hn : (norm2 a <> 0)%R) by lra. split.
  - unfold unit_ball_projection, scale, Rdiv. rewrite Rmax_right by lra.
    f_equal; ring.
  - pose proof (norm2_square a) as Hsq.
    unfold norm2 at 1. unfold scale. cbn [Float3.x Float3.y Float3.z].
    replace (/ norm2 a * Float3.x a * (/ norm2 a * Float3.x a)
             + / norm2 a * Float3.y a * (/ norm2 a * Float3.y a)
             + / norm2 a * Float3.z a * (/ norm2 a * Float3.z a))%R
      with 1%R; [apply sqrt_1 |].
    transitivity ((norm2 a * norm2 a) * (/ norm2 a * / norm2 a))%R.
    + field. assumption.
    + rewrite Hsq. ring.
Qed.

Lemma norm2_huge_vector : norm2 huge_vector = IZR (2 ^ 67).
Proof.
  unfold norm2, huge_vector. cbn [Float3.x Float3.y Float3.z].
  replace (IZR (2 ^ 67) * IZR (2 ^ 67) + 0 * 0 + 0 * 0)%R
    with (IZR (2 ^ 67) * IZR (2 ^ 67))%R by ring.
  apply sqrt_square. apply IZR_le. apply Z.leb_le. vm_compute. reflexivity.
Qed.

Lemma huge_vector_overflows : (overflow_threshold <= sum_squares huge_vector)%R.
Proof.
  unfold sum_squares, huge_vector, overflow_threshold. cbn [Float3.x Float3.y Float3.z].
  replace (IZR (2 ^ 67) * IZR (2 ^ 67) + 0 * 0 + 0 * 0)%R
    with (IZR (2 ^ 67 * 2 ^ 67)) by (rewrite mult_IZR; ring).
  apply IZR_le. apply Z.leb_le. vm_compute. reflexivity.
Qed.

(** C7 as stated fails where the squares overflow: for [p = (2^67, 0, 0)]
    the product [p.x * p.x = 2^134] is beyond the binary32 range, the
    computed norm is [+inf], and the function returns [(0, 0, 0)], which has
    norm 0 and is not [p / |p| = (1, 0, 0)]. *)
Lemma projectUnitBall_overflows : ~ projects_to_unit_ball huge_vector.
Proof.
  intros (_ & _ & Hout).
  assert (Hbig : (1 < norm2 huge_vector)%R).
  { rewrite norm2_huge_vector. apply IZR_lt. apply Z.ltb_lt. vm_compute. reflexivity. }
  destruct (Hout Hbig) as (q & c & Hq & Hnorm & _).
  rewrite (projectUnitBall_overflow huge_vector huge_vector_overflows) in Hq.
  assert (E : of_float3 q = of_float3 (make_float3 0 0 0)) by congruence.
  apply of_float3_inj in E. subst q.
  unfold norm2 in Hnorm. cbn [Float3.x Float3.y Float3.z] in Hnorm.
  replace (0 * 0 + 0 * 0 + 0 * 0)%R with 0%R in Hnorm by ring.
  rewrite sqrt_0 in Hnorm. lra.
Qed.

(** C7, amended.  For a vector [p] of finite components whose squared norm
    [x*x + y*y + z*z] stays below the binary32 overflow threshold,
    [projectUnitBall(p)] is [p / max(1, |p|)] for the Euclidean norm: it
    returns [p] itself when [|p| <= 1], and when [|p| > 1] it returns a vector
    of norm 1 that is a positive multiple of [p] (rounding aside).  When the
    squared norm reaches the threshold, the computed norm is [+inf] and the
    function returns the zero vector. *)
Theorem projectUnitBall_spec (a : float3) :
  ((sum_squares a < overflow_threshold)%R ->
     projectUnitBall (of_float3 a) = Ok (of_float3 (unit_ball_projection a))
     /\ ((norm2 a <= 1)%R -> projectUnitBall (of_float3 a) = Ok (of_float3 a))
     /\ ((1 < norm2 a)%R ->
         exists q c, projectUnitBall (of_float3 a) = Ok (of_float3 q)
           /\ norm2 q = 1%R /\ (0 < c)%R /\ q = scale c a))
  /\ ((overflow_threshold <= sum_squares a)%R ->
      projectUnitBall (of_float3 a) = Ok (of_float3 (make_float3 0 0 0))).
Proof.
  split; [| apply projectUnitBall_overflow].
  intros Hlt. rewrite (projectUnitBall_value a Hlt).
  split; [reflexivity | split].
  - intros Hle. now rewrite unit_ball_projection_inside.
  - intros Hgt. destruct (unit_ball_projection_outside a Hgt) as [Hval Hnorm].
    exists (scale (/ norm2 a) a), (/ norm2 a)%R.
    rewrite Hval. split; [reflexivity | split; [exact Hnorm |]].
    split; [apply Rinv_0_lt_compat; lra | reflexivity].
Qed.

Lemma projectUnitBall_spec_witness :
  projectUnitBall (of_float3 (make_float3 (/ 2) 0 0)) = Ok (of_float3 (make_float3 (/ 2) 0 0))
  /\ (exists q c, projectUnitBall (of_float3 (make_float3 3 4 0)) = Ok (of_float3 q)
        /\ norm2 q = 1%R /\ (0 < c)%R /\ q = scale c (make_float3 3 4 0))
  /\ projectUnitBall (of_float3 huge_vector) = Ok (of_float3 (make_float3 0 0 0)).
Proof.
  pose proof overflow_threshold_large as HT.
  assert (Hhalf : norm2 (make_float3 (/ 2) 0 0) = (/ 2)%R).
  { unfold norm2. cbn [Float3.x Float3.y Float3.z].
    replace (/ 2 * / 2 + 0 * 0 + 0 * 0)%R with (/ 2 * / 2)%R by ring.
    apply sqrt_square. lra. }
  assert (Hfive : norm2 (make_float3 3 4 0) = 5%R).
  { unfold norm2. cbn [Float3.x Float3.y Float3.z].
    replace (3 * 3 + 4 * 4 + 0 * 0)%R with (5 * 5)%R by ring.
    apply sqrt_square. lra. }
  assert (Shalf : (sum_squares (make_float3 (/ 2) 0 0) < overflow_threshold)%R).
  { unfold sum_squares. cbn [Float3.x Float3.y Float3.z]. lra. }
  assert (Sfive : (sum_squares (make_float3 3 4 0) < overflow_threshold)%R).
  { unfold sum_squares. cbn [Float3.x Float3.y Float3.z].
    apply Rlt_trans with 26%R; [lra |]. unfold overflow_threshold.
    apply IZR_lt. apply Z.ltb_lt. vm_compute. reflexivity. }
  split; [| split].
  - apply (proj1 (proj2 (proj1 (projectUnitBall_spec (make_float3 (/ 2) 0 0)) Shalf))).
    rewrite Hhalf. lra.
  - apply (proj2 (proj2 (proj1 (projectUnitBall_spec (make_float3 3 4 0)) Sfive))).
    rewrite Hfive. lra.
  - exact (proj2 (projectUnitBall_spec huge_vector) huge_vector_overflows).
Defined.

(** ** Transfers *)

(** C9.  [copyFrom] is one call of [Host2DeviceCopy] when the store is on
    the device and one call of [Host2HostCopy] otherwise; [copyTo] is one
    call of [Device2HostCopy] when the store is on the device and one call
    of [Host2HostCopy] otherwise.  The status returned, the memory written
    and the backend state left behind are those of that single call. *)
Theorem transfer_paths (cudaError_t backend : Type)
  (Host2DeviceCopy Device2HostCopy Host2HostCopy : copy_primitive cudaError_t backend)
  (g : fusionData) (data : storage) (npitch : Z) (b : backend) :
  (let r := Host2DeviceCopy (_voxel g) (_pitch g) data npitch (_w g) (_h g) (_d g) b in
   copyFrom cudaError_t backend Host2DeviceCopy Host2HostCopy true g data npitch b
   = (fst (fst r), set_voxel g (snd (fst r)), snd r))
  /\ (let r := Host2HostCopy (_voxel g) (_pitch g) data npitch (_w g) (_h g) (_d g) b in
      copyFrom cudaError_t backend Host2DeviceCopy Host2HostCopy false g data npitch b
      = (fst (fst r), set_voxel g (snd (fst r)), snd r))
  /\ copyTo cudaError_t backend Device2HostCopy Host2HostCopy true g data npitch b
     = Device2HostCopy data npitch (_voxel g) (_pitch g) (_w g) (_h g) (_d g) b
  /\ copyTo cudaError_t backend Device2HostCopy Host2HostCopy false g data npitch b
     = Host2HostCopy data npitch (_voxel g) (_pitch g) (_w g) (_h g) (_d g) b.
Proof.
  repeat split.
  - unfold copyFrom.
    destruct (Host2DeviceCopy (_voxel g) (_pitch g) data npitch (_w g) (_h g) (_d g) b)
      as [[e mem] b']. reflexivity.
  - unfold copyFrom.
    destruct (Host2HostCopy (_voxel g) (_pitch g) data npitch (_w g) (_h g) (_d g) b)
      as [[e mem] b']. reflexivity.
Qed.

(** ** Histogram update *)

Lemma updateHist_empty (n : Z) (g : fusionData) (x y z : Z) (voxdepth depth threshold : R) :
  ((if n =? 2 then 0 else threshold) <= voxdepth - depth)%R ->
  updateHist n g x y z voxdepth depth threshold = h_last_incr n g x y z.
Proof.
  intros H. unfold updateHist.
  destruct (Rle_dec (if n =? 2 then 0%R else threshold) (voxdepth - depth)); [reflexivity | contradiction].
Qed.

Lemma updateHist_occluded (n : Z) (g : fusionData) (x y z : Z) (voxdepth depth threshold : R) :
  (voxdepth - depth < (if n =? 2 then 0 else threshold))%R ->
  (voxdepth - depth <= - (if n =? 2 then 0 else threshold))%R ->
  updateHist n g x y z voxdepth depth threshold = h_first_incr n g x y z.
Proof.
  intros H1 H2. unfold updateHist.
  destruct (Rle_dec (if n =? 2 then 0%R else threshold) (voxdepth - depth)); [lra |].
  destruct (Rle_dec (voxdepth - depth) (- (if n =? 2 then 0%R else threshold)));
    [reflexivity | contradiction].
Qed.

Lemma updateHist_near (n : Z) (g : fusionData) (x y z : Z) (voxdepth depth threshold : R) :
  (voxdepth - depth < (if n =? 2 then 0 else threshold))%R ->
  (- (if n =? 2 then 0 else threshold) < voxdepth - depth)%R ->
  updateHist n g x y z voxdepth depth threshold
  = h_op_incr n g x y z
      (roundf ((voxdepth - depth + (if n =? 2 then 0 else threshold))
               / (2 * (if n =? 2 then 0 else threshold)) * IZR (n - 3))).
Proof.
  intros H1 H2. unfold updateHist.
  destruct (Rle_dec (if n =? 2 then 0%R else threshold) (voxdepth - depth)); [lra |].
  destruct (Rle_dec (voxdepth - depth) (- (if n =? 2 then 0%R else threshold))); [lra |].
  rewrite fdiv_ok by lra. reflexivity.
Qed.

(** The division of the near-surface branch is never by zero: the branch is
    entered only with a positive threshold. *)
Lemma updateHist_no_division_by_zero (n : Z) (g : fusionData) (x y z : Z)
  (voxdepth depth threshold : R) :
  updateHist n g x y z voxdepth depth threshold <> DivByZero.
Proof.
  assert (Hincr : forall hist k, bin_incr n hist k <> DivByZero).
  { intros hist k. unfold bin_incr, aget, aset.
    destruct (in_bounds n k); cbn; discriminate. }
  assert (Hset : forall k, (hist <- bin_incr n (h g x y z) k ;; Ok (set_h g x y z hist))
                           <> DivByZero).
  { intros k. specialize (Hincr (h g x y z) k).
    destruct (bin_incr n (h g x y z) k); cbn; congruence. }
  unfold updateHist.
  destruct (Rle_dec (if n =? 2 then 0%R else threshold) (voxdepth - depth)); [apply Hset |].
  destruct (Rle_dec (voxdepth - depth) (- (if n =? 2 then 0%R else threshold))); [apply Hset |].
  rewrite fdiv_ok by lra. apply Hset.
Qed.

(** With two bins every call goes to the "empty" or to the "occluded"
    bin. *)
Lemma updateHist_two_bins (g : fusionData) (x y z : Z) (voxdepth depth threshold : R) :
  ((0 <= voxdepth - depth)%R ->
     updateHist 2 g x y z voxdepth depth threshold = h_last_incr 2 g x y z)
  /\ ((voxdepth - depth < 0)%R ->
     updateHist 2 g x y z voxdepth depth threshold = h_first_incr 2 g x y z).
Proof.
  split; intros H.
  - apply updateHist_empty. cbn. exact H.
  - apply updateHist_occluded; cbn; lra.
Qed.

Lemma roundf_below_half (r : R) : (0 <= r < / 2)%R -> roundf r = 0.
Proof.
  intros Hr. unfold roundf. destruct (Rle_dec 0 r) as [_ | N]; [| lra].
  symmetry. apply Int_part_spec. cbn. lra.
Qed.

(** C2 as stated fails where the two tests overlap: with two bins the
    threshold is 0, and at [sd = 0] both [sd >= threshold] and
    [sd <= -threshold] hold; the call increments the "empty" bin only. *)
Lemma routing_overlap :
  ~ routes_independently 2 (uniform_store 1 1 1 voxel0) 0 0 0 0 0 (/ 5).
Proof.
  unfold routes_independently. cbn [Z.eqb Pos.eqb].
  intros (Hlast & Hfirst & _).
  assert (E : h_last_incr 2 (uniform_store 1 1 1 voxel0) 0 0 0
              = h_first_incr 2 (uniform_store 1 1 1 voxel0) 0 0 0).
  { rewrite <- Hlast by lra. apply Hfirst. lra. }
  apply (f_equal (fun r => match r with Ok g' => bin (h g' 0 0 0) 0 | _ => 0 end)) in E.
  vm_compute in E. discriminate E.
Qed.

(** C2, amended.  [updateHist] takes [sd = voxdepth - depth] and the
    threshold [t], which is 0 when [_histBins = 2], and applies the first of
    three rules that fits: [sd >= t] increments the "empty" (last) bin;
    otherwise [sd <= -t] increments the "occluded" (first) bin; otherwise the
    increment goes through the histogram operator at index
    [round((sd + t) / (2 t) * (_histBins - 3))].  So [sd = t] always goes to
    "empty", and [sd = -t] goes to "occluded" when [t > 0]. *)
Theorem updateHist_routing (n : Z) (g : fusionData) (x y z : Z)
  (voxdepth depth threshold : R) :
  let sd := (voxdepth - depth)%R in
  let t := if n =? 2 then 0%R else threshold in
  ((t <= sd)%R -> updateHist n g x y z voxdepth depth threshold = h_last_incr n g x y z)
  /\ ((sd < t)%R -> (sd <= - t)%R ->
      updateHist n g x y z voxdepth depth threshold = h_first_incr n g x y z)
  /\ ((sd < t)%R -> (- t < sd)%R ->
      updateHist n g x y z voxdepth depth threshold
      = h_op_incr n g x y z (roundf ((sd + t) / (2 * t) * IZR (n - 3))))
  /\ (sd = t -> updateHist n g x y z voxdepth depth threshold = h_last_incr n g x y z)
  /\ ((0 < t)%R -> sd = (- t)%R ->
      updateHist n g x y z voxdepth depth threshold = h_first_incr n g x y z).
Proof.
  intros sd t. subst sd t.
  split; [apply updateHist_empty |].
  split; [apply updateHist_occluded |].
  split; [apply updateHist_near |].
  split.
  - intros E. apply updateHist_empty. rewrite E. apply Rle_refl.
  - intros Hpos E. apply updateHist_occluded; rewrite E; lra.
Qed.

Lemma updateHist_routing_witness :
  let g := uniform_store 4 4 4 voxel0 in
  updateHist 10 g 0 0 0 1 (/ 2) (/ 5) = h_last_incr 10 g 0 0 0
  /\ updateHist 10 g 0 0 0 0 1 (/ 5) = h_first_incr 10 g 0 0 0
  /\ updateHist 10 g 0 0 0 (/ 2) (/ 2) (/ 5)
     = h_op_incr 10 g 0 0 0 (roundf ((/ 2 - / 2 + / 5) / (2 * / 5) * IZR (10 - 3))).
Proof.
  intros g.
  destruct (updateHist_routing 10 g 0 0 0 1 (/ 2) (/ 5)) as (Hlast & _).
  destruct (updateHist_routing 10 g 0 0 0 0 1 (/ 5)) as (_ & Hfirst & _).
  destruct (updateHist_routing 10 g 0 0 0 (/ 2) (/ 2) (/ 5)) as (_ & _ & Hnear & _).
  cbn [Z.eqb Pos.eqb] in Hlast, Hfirst, Hnear.
  split; [apply Hlast; lra |].
  split; [apply Hfirst; lra |].
  apply Hnear; lra.
Defined.

Lemma bin_incr_in (n : Z) (hist : histogram) (k : Z) :
  0 <= k < n ->
  bin_incr n hist k = Ok {| bin := upd (bin hist) k (bin hist k + 1) |}.
Proof.
  intros Hk. unfold bin_incr. rewrite aget_in by assumption. cbn [bind].
  rewrite aset_in by assumption. reflexivity.
Qed.

Lemma bin_incr_out (n : Z) (hist : histogram) (k : Z) :
  k < 0 \/ n <= k -> bin_incr n hist k = OutOfRange.
Proof. intros Hk. unfold bin_incr. now rewrite aget_out. Qed.

Lemma bin_incr_inv (n : Z) (hist hist' : histogram) (k : Z) :
  bin_incr n hist k = Ok hist' ->
  0 <= k < n /\ hist' = {| bin := upd (bin hist) k (bin hist k + 1) |}.
Proof.
  intros H. destruct (Z_lt_dec k 0) as [Hneg | Hnn].
  - rewrite bin_incr_out in H by lia. discriminate H.
  - destruct (Z_le_dec n k) as [Hge | Hlt].
    + rewrite bin_incr_out in H by lia. discriminate H.
    + rewrite bin_incr_in in H by lia. injection H as <-. split; [lia | reflexivity].
Qed.

(** Every call of [updateHist] is the increment of the cell [bucket]. *)
Lemma updateHist_bucket (n : Z) (g : fusionData) (x y z : Z) (voxdepth depth threshold : R) :
  updateHist n g x y z voxdepth depth threshold
  = (hist <- bin_incr n (h g x y z) (bucket n (voxdepth - depth) threshold) ;;
     Ok (set_h g x y z hist)).
Proof.
  unfold updateHist, bucket, h_last_incr, h_first_incr, h_op_incr.
  destruct (Rle_dec (if n =? 2 then 0%R else threshold) (voxdepth - depth)); [reflexivity |].
  destruct (Rle_dec (voxdepth - depth) (- (if n =? 2 then 0%R else threshold))); [reflexivity |].
  rewrite fdiv_ok by lra. reflexivity.
Qed.

Lemma h_set_h (g : fusionData) (x y z : Z) (hist : histogram) :
  h (set_h g x y z hist) x y z = hist.
Proof. unfold h, set_h, offset. cbn. now rewrite Z.eqb_refl. Qed.

(** What a call of [updateHist] that returns leaves behind: one cell of the
    addressed voxel's histogram is one higher, and nothing else differs. *)
Lemma updateHist_frame (n : Z) (g g' : fusionData) (x y z : Z) (voxdepth depth threshold : R) :
  updateHist n g x y z voxdepth depth threshold = Ok g' ->
  let k := bucket n (voxdepth - depth) threshold in
  0 <= k < n
  /\ bin (h g' x y z) k = bin (h g x y z) k + 1
  /\ (forall i, i <> k -> bin (h g' x y z) i = bin (h g x y z) i)
  /\ u g' x y z = u g x y z
  /\ v g' x y z = v g x y z
  /\ p g' x y z = p g x y z
  /\ (forall o, o <> offset g x y z -> _voxel g' o = _voxel g o)
  /\ _bincenters g' = _bincenters g
  /\ _binstep g' = _binstep g
  /\ (_w g', _h g', _d g', _pitch g', _spitch g') = (_w g, _h g, _d g, _pitch g, _spitch g).
Proof.
  intros Hrun k. rewrite updateHist_bucket in Hrun. fold k in Hrun.
  destruct (bin_incr n (h g x y z) k) as [hist | | |] eqn:Hincr; try discriminate Hrun.
  cbn [bind] in Hrun. injection Hrun as <-.
  apply bin_incr_inv in Hincr. destruct Hincr as [Hk ->].
  split; [exact Hk |].
  rewrite h_set_h. cbn [bin].
  split; [apply upd_same |].
  split; [intros i Hi; now apply upd_other |].
  unfold u, v, p, set_h, offset. cbn. rewrite Z.eqb_refl. cbn.
  repeat split.
  intros o Ho. apply Z.eqb_neq in Ho. now rewrite Ho.
Qed.

(** A run of [N] calls that all address the same cell [k] of the histogram
    raises that cell by [N] and leaves the other cells as they were. *)
Lemma updateHist_run_same_bucket (n : Z) (x y z : Z) (k : Z) (obs : list (R * R * R)) :
  0 <= k < n ->
  Forall (fun o => bucket n (fst (fst o) - snd (fst o)) (snd o) = k) obs ->
  forall g, exists g',
    updateHist_run n g x y z obs = Ok g'
    /\ bin (h g' x y z) k = bin (h g x y z) k + Z.of_nat (length obs)
    /\ (forall i, i <> k -> bin (h g' x y z) i = bin (h g x y z) i)
    /\ offset g' x y z = offset g x y z.
Proof.
  intros Hk Hall. induction Hall as [| [[voxdepth depth] threshold] obs Ho Hall IH]; intros g.
  - exists g. cbn. split; [reflexivity | split; [lia | split; reflexivity]].
  - cbn [fst snd] in Ho. cbn [updateHist_run].
    rewrite updateHist_bucket, Ho, bin_incr_in by assumption. cbn [bind].
    destruct (IH (set_h g x y z {| bin := upd (bin (h g x y z)) k (bin (h g x y z) k + 1) |}))
      as (g' & Hrun & Hk' & Hother & Hoff).
    exists g'. split; [exact Hrun |].
    rewrite h_set_h in Hk', Hother. cbn [bin] in Hk', Hother.
    rewrite upd_same in Hk'.
    split; [rewrite Hk'; cbn [length]; lia |].
    split; [| exact Hoff].
    intros i Hi. rewrite (Hother i Hi). now apply upd_other.
Qed.

(** Inside the lattice the linear address is [x + y w + z w h], below
    [w h d], and distinct voxels have distinct addresses. *)
Lemma offset_in_range (g : fusionData) (x y z : Z) :
  0 <= x < _w g -> 0 <= y < _h g -> 0 <= z < _d g -> _w g * _h g * _d g <= 2 ^ 64 ->
  offset g x y z = x + y * _w g + z * _w g * _h g
  /\ 0 <= offset g x y z < _w g * _h g * _d g.
Proof.
  intros Hx Hy Hz Hsize.
  assert (Hyw : y * _w g <= (_h g - 1) * _w g) by (apply Z.mul_le_mono_nonneg_r; lia).
  assert (Hzwh : z * (_w g * _h g) <= (_d g - 1) * (_w g * _h g))
    by (apply Z.mul_le_mono_nonneg_r; [apply Z.mul_nonneg_nonneg |]; lia).
  assert (H0 : 0 <= y * _w g) by (apply Z.mul_nonneg_nonneg; lia).
  assert (H1 : 0 <= z * (_w g * _h g))
    by (apply Z.mul_nonneg_nonneg; [| apply Z.mul_nonneg_nonneg]; lia).
  assert (Hlin : 0 <= x + y * _w g + z * _w g * _h g < _w g * _h g * _d g).
  { rewrite <- (Z.mul_assoc z). lia. }
  unfold offset, size_t. rewrite Z.mod_small by lia. split; [reflexivity | exact Hlin].
Qed.

Lemma digits_unique (w a a' r r' : Z) :
  0 <= r < w -> 0 <= r' < w -> r + a * w = r' + a' * w -> r = r' /\ a = a'.
Proof.
  intros Hr Hr' E.
  destruct (Z.div_mod_unique w a a' r r') as [Ha Hb]; [left; lia | left; lia | lia |].
  split; assumption.
Qed.

Lemma offset_injective (g : fusionData) (x y z x' y' z' : Z) :
  0 <= x < _w g -> 0 <= y < _h g -> 0 <= z < _d g ->
  0 <= x' < _w g -> 0 <= y' < _h g -> 0 <= z' < _d g ->
  _w g * _h g * _d g <= 2 ^ 64 ->
  offset g x y z = offset g x' y' z' -> x = x' /\ y = y' /\ z = z'.
Proof.
  intros Hx Hy Hz Hx' Hy' Hz' Hsize E.
  destruct (offset_in_range g x y z Hx Hy Hz Hsize) as [E1 _].
  destruct (offset_in_range g x' y' z' Hx' Hy' Hz' Hsize) as [E2 _].
  rewrite E1, E2 in E.
  destruct (digits_unique (_w g) (y + z * _h g) (y' + z' * _h g) x x' Hx Hx') as [Ex Eyz]; [lia |].
  destruct (digits_unique (_h g) z z' y y' Hy Hy' Eyz) as [Ey Ez].
  auto.
Qed.

(** A call of [updateHist] leaves every other voxel of the lattice as it
    was. *)
Lemma updateHist_other_voxels (n : Z) (g g' : fusionData) (x y z x' y' z' : Z)
  (voxdepth depth threshold : R) :
  updateHist n g x y z voxdepth depth threshold = Ok g' ->
  0 <= x < _w g -> 0 <= y < _h g -> 0 <= z < _d g ->
  0 <= x' < _w g -> 0 <= y' < _h g -> 0 <= z' < _d g ->
  _w g * _h g * _d g <= 2 ^ 64 ->
  (x', y', z') <> (x, y, z) ->
  u g' x' y' z' = u g x' y' z' /\ v g' x' y' z' = v g x' y' z'
  /\ p g' x' y' z' = p g x' y' z' /\ h g' x' y' z' = h g x' y' z'.
Proof.
  intros Hrun Hx Hy Hz Hx' Hy' Hz' Hsize Hne.
  destruct (updateHist_frame n g g' x y z voxdepth depth threshold Hrun)
    as (_ & _ & _ & _ & _ & _ & Hother & _ & _ & Hdims).
  assert (Hoff : offset g' x' y' z' = offset g x' y' z').
  { unfold offset. injection Hdims as -> -> _ _ _. reflexivity. }
  assert (Hdiff : offset g x' y' z' <> offset g x y z).
  { intros E. apply Hne.
    destruct (offset_injective g x' y' z' x y z Hx' Hy' Hz' Hx Hy Hz Hsize E) as (-> & -> & ->).
    reflexivity. }
  unfold u, v, p, h. rewrite Hoff, (Hother _ Hdiff). auto.
Qed.

(** C8.  A near-surface observation whose bucket index rounds to 0 sends
    the increment through the histogram operator at index 0, which addresses
    no cell of the histogram: with ten bins, threshold 1/5 and
    [sd = 1/100 - 1/5], the index is [round(0.175) = 0]. *)
Theorem updateHist_operator_index_zero (g : fusionData) (x y z : Z) :
  updateHist 10 g x y z (/ 100) (/ 5) (/ 5) = OutOfRange.
Proof.
  rewrite updateHist_near by (cbn; lra).
  cbn [Z.eqb Pos.eqb].
  rewrite roundf_below_half.
  - unfold h_op_incr, op_index. now rewrite bin_incr_out by lia.
  - change (10 - 3) with 7. lra.
Qed.

(** ** The proximal step *)

Lemma hist_at_in (n : Z) (hist : histogram) (j : Z) :
  1 <= j <= n -> hist_at n hist j = Ok (bin hist (op_index j)).
Proof. intros Hj. unfold hist_at. apply aget_in. unfold op_index. lia. Qed.

(** The two loops of [Wi] over a run of operator indices. *)
Lemma Wi_loop_minus (n : Z) (hist : histogram) (len : nat) :
  forall lo r, 1 <= lo -> lo + Z.of_nat len <= n + 1 ->
    foldM (fun j r => c <- hist_at n hist j ;; Ok (r - c)) (Zseq lo len) r
    = Ok (r - sum_h hist (Zseq lo len)).
Proof.
  induction len as [| len IH]; intros lo r Hlo Hhi.
  - cbn. f_equal. lia.
  - cbn [Zseq foldM]. rewrite hist_at_in by lia. cbn [bind].
    rewrite IH by lia. cbn [sum_h fold_right]. f_equal. fold (sum_h hist (Zseq (lo + 1) len)). lia.
Qed.

Lemma Wi_loop_plus (n : Z) (hist : histogram) (len : nat) :
  forall lo r, 1 <= lo -> lo + Z.of_nat len <= n + 1 ->
    foldM (fun j r => c <- hist_at n hist j ;; Ok (r + c)) (Zseq lo len) r
    = Ok (r + sum_h hist (Zseq lo len)).
Proof.
  induction len as [| len IH]; intros lo r Hlo Hhi.
  - cbn. f_equal. lia.
  - cbn [Zseq foldM]. rewrite hist_at_in by lia. cbn [bind].
    rewrite IH by lia. cbn [sum_h fold_right]. f_equal. fold (sum_h hist (Zseq (lo + 1) len)). lia.
Qed.

(** [Wi] computes the [W_i] of the specification. *)
Lemma Wi_value (n : Z) (g : fusionData) (i x y z : Z) :
  n <= 254 -> 0 <= i <= n ->
  Wi n g i x y z = Ok (W_spec n (h g x y z) i).
Proof.
  intros Hn Hi. unfold Wi.
  rewrite (for_uchar_foldM (fun j => j <=? i) i) by (try reflexivity; unfold loop_fuel; lia).
  replace (i + 1 - 1) with i by lia.
  rewrite Wi_loop_minus by lia. cbn [bind].
  rewrite uchar_small by lia.
  rewrite (for_uchar_foldM (fun j => j <=? n) n) by (try reflexivity; unfold loop_fuel; lia).
  replace (n + 1 - (i + 1)) with (n - i) by lia.
  rewrite Wi_loop_plus by lia. reflexivity.
Qed.

Lemma pi_value (n : Z) (g : fusionData) (u0 : R) (i x y z : Z) (tau lambda : R) :
  n <= 254 -> 0 <= i <= n ->
  pi n g u0 i x y z tau lambda
  = Ok (u0 + tau * lambda * IZR (W_spec n (h g x y z) i))%R.
Proof. intros Hn Hi. unfold pi. now rewrite Wi_value. Qed.

(** The loop of [proxHist] inserts the candidates one after the other. *)
Lemma proxHist_loop (n : Z) (g : fusionData) (u0 : R) (x y z : Z) (tau lambda : R)
  (len : nat) :
  n <= 254 ->
  forall lo prox, 0 <= lo -> lo + Z.of_nat len <= n + 1 ->
    foldM (fun j prox => c <- pi n g u0 j x y z tau lambda ;; Ok (insert prox c))
      (Zseq lo len) prox
    = Ok (fold_left insert
            (map (fun i => (u0 + tau * lambda * IZR (W_spec n (h g x y z) i))%R) (Zseq lo len))
            prox).
Proof.
  intros Hn. induction len as [| len IH]; intros lo prox Hlo Hhi.
  - reflexivity.
  - cbn [Zseq foldM map fold_left]. rewrite pi_value by lia. cbn [bind].
    apply IH; lia.
Qed.

(** *** The sorted structure *)

Lemma insert_sorted_perm (a : R) (l : list R) : Permutation (insert_sorted a l) (a :: l).
Proof.
  induction l as [| e l IH]; cbn.
  - apply Permutation_refl.
  - destruct (Rle_dec a e).
    + apply Permutation_refl.
    + apply perm_trans with (e :: a :: l); [now apply perm_skip | apply perm_swap].
Qed.

Lemma insert_sorted_sorted (a : R) (l : list R) :
  StronglySorted Rle l -> StronglySorted Rle (insert_sorted a l).
Proof.
  induction l as [| e l IH]; intros Hs; cbn.
  - constructor; constructor.
  - apply StronglySorted_inv in Hs. destruct Hs as [Hl He].
    destruct (Rle_dec a e) as [Hae | Hae].
    + constructor; [constructor; assumption |].
      constructor; [exact Hae |].
      eapply Forall_impl; [| exact He]. intros b Hb. cbn in Hb. lra.
    + constructor; [now apply IH |].
      eapply Permutation_Forall; [apply Permutation_sym, insert_sorted_perm |].
      constructor; [lra | exact He].
Qed.

Lemma fold_insert_element (cs : list R) :
  forall s, Permutation (element (fold_left insert cs s)) (rev cs ++ element s)
            /\ (StronglySorted Rle (element s) ->
                StronglySorted Rle (element (fold_left insert cs s))).
Proof.
  induction cs as [| c cs IH]; intros s; cbn [fold_left rev].
  - split; [apply Permutation_refl | trivial].
  - destruct (IH (insert s c)) as [Hperm Hsorted]. split.
    + eapply perm_trans; [exact Hperm |].
      unfold insert at 1. cbn [element].
      rewrite <- app_assoc. cbn [app].
      apply Permutation_app_head. apply insert_sorted_perm.
    + intros Hs. apply Hsorted. unfold insert. cbn [element].
      now apply insert_sorted_sorted.
Qed.

(** *** Medians *)

Lemma count_below_cons (m a : R) (l : list R) :
  count_below m (a :: l)
  = ((if Rlt_dec a m then 1 else 0) + count_below m l)%nat.
Proof. unfold count_below. cbn. destruct (Rlt_dec a m); reflexivity. Qed.

Lemma count_above_cons (m a : R) (l : list R) :
  count_above m (a :: l)
  = ((if Rlt_dec m a then 1 else 0) + count_above m l)%nat.
Proof. unfold count_above. cbn. destruct (Rlt_dec m a); reflexivity. Qed.

Lemma count_below_perm (m : R) (l l' : list R) :
  Permutation l l' -> count_below m l = count_below m l'.
Proof.
  induction 1 as [| a l l' _ IH | a b l | l l' l'' _ IH1 _ IH2].
  - reflexivity.
  - rewrite !count_below_cons. now rewrite IH.
  - rewrite !count_below_cons. lia.
  - now rewrite IH1.
Qed.

Lemma count_above_perm (m : R) (l l' : list R) :
  Permutation l l' -> count_above m l = count_above m l'.
Proof.
  induction 1 as [| a l l' _ IH | a b l | l l' l'' _ IH1 _ IH2].
  - reflexivity.
  - rewrite !count_above_cons. now rewrite IH.
  - rewrite !count_above_cons. lia.
  - now rewrite IH1.
Qed.

Lemma count_above_le_length (m : R) (l : list R) : (count_above m l <= length l)%nat.
Proof.
  induction l as [| a l IH]; [cbn; lia |].
  rewrite count_above_cons. cbn [length]. destruct (Rlt_dec m a); lia.
Qed.

Lemma count_below_none (m : R) (l : list R) : Forall (Rle m) l -> count_below m l = 0%nat.
Proof.
  induction 1 as [| a l Ha _ IH]; [reflexivity |].
  rewrite count_below_cons, IH. destruct (Rlt_dec a m); [lra | reflexivity].
Qed.

Lemma is_median_perm (l l' : list R) (m : R) :
  Permutation l l' -> is_median l m -> is_median l' m.
Proof.
  intros Hperm (Hin & Hlo & Hhi). unfold is_median.
  rewrite <- (count_below_perm m l l' Hperm), <- (count_above_perm m l l' Hperm).
  rewrite <- (Permutation_length Hperm).
  split; [eapply Permutation_in; eassumption | split; assumption].
Qed.

(** In an ascending list the element of rank [k] has at most [k] elements
    below it and at most [length - 1 - k] elements above it. *)
Lemma sorted_rank (s : list R) :
  StronglySorted Rle s ->
  forall k, (k < length s)%nat ->
    In (nth k s 0%R) s
    /\ (count_below (nth k s 0%R) s <= k)%nat
    /\ (count_above (nth k s 0%R) s <= length s - 1 - k)%nat.
Proof.
  induction 1 as [| a s Hs IH Ha]; intros k Hk; cbn [length] in Hk.
  - lia.
  - destruct k as [| k]; cbn [nth].
    + split; [now left |].
      rewrite count_below_cons, count_above_cons, (count_below_none a s Ha).
      pose proof (count_above_le_length a s).
      destruct (Rlt_dec a a); [lra |]. cbn [length]. lia.
    + destruct (IH k ltac:(lia)) as (Hin & Hlo & Hhi).
      split; [now right |].
      rewrite count_below_cons, count_above_cons.
      assert (Ham : (a <= nth k s 0)%R).
      { rewrite Forall_forall in Ha. now apply Ha. }
      destruct (Rlt_dec (nth k s 0%R) a); [lra |].
      destruct (Rlt_dec a (nth k s 0%R)); cbn [length]; lia.
Qed.

Lemma sorted_median (s : list R) :
  StronglySorted Rle s -> s <> [] -> is_median s (nth (length s / 2) s 0%R).
Proof.
  intros Hs Hne.
  assert (Hlen : (0 < length s)%nat) by (destruct s; [congruence | cbn; lia]).
  pose proof (Nat.div_mod_eq (length s) 2) as Hdiv.
  pose proof (Nat.mod_upper_bound (length s) 2 ltac:(lia)) as Hmod.
  destruct (sorted_rank s Hs (length s / 2)%nat ltac:(lia)) as (Hin & Hlo & Hhi).
  split; [exact Hin | split; lia].
Qed.

Lemma sum_h_zero (n : Z) (hist : histogram) (l : list Z) :
  (forall k, 0 <= k < n -> bin hist k = 0) ->
  (forall j, In j l -> 1 <= j <= n) ->
  sum_h hist l = 0.
Proof.
  intros Hzero. induction l as [| j l IH]; intros Hl; cbn.
  - reflexivity.
  - fold (sum_h hist l). rewrite IH by (intros j' Hj'; apply Hl; now right).
    rewrite Hzero; [reflexivity |]. unfold op_index.
    specialize (Hl j ltac:(now left)). lia.
Qed.

Lemma W_spec_zero (n : Z) (hist : histogram) (i : Z) :
  (forall k, 0 <= k < n -> bin hist k = 0) -> 0 <= i <= n -> W_spec n hist i = 0.
Proof.
  intros Hzero Hi. unfold W_spec.
  rewrite (sum_h_zero n), (sum_h_zero n); try assumption; try reflexivity.
  - intros j Hj. apply Zseq_In in Hj. lia.
  - intros j Hj. apply Zseq_In in Hj. lia.
Qed.

(** For bin counts up to 254, the largest for which the [unsigned char]
    loop counters of [proxHist] and [Wi] do not wrap: [proxHist] returns a
    median of the [bins + 1] candidates [p_0 = u] and
    [p_i = u + tau * lambda * W_i], [i = 1..bins], with [W_i] as the
    specification defines it over the voxel's histogram; when every count of
    that histogram is zero it returns [u]. *)
Lemma proxHist_median (n : Z) (g : fusionData) (u0 : R) (x y z : Z) (tau lambda : R) :
  0 <= n <= 254 ->
  exists m,
    proxHist n g u0 x y z tau lambda = Ok m
    /\ is_median (candidates n (h g x y z) u0 tau lambda) m
    /\ ((forall k, 0 <= k < n -> bin (h g x y z) k = 0) -> m = u0).
Proof.
  intros Hn. unfold proxHist.
  rewrite (for_uchar_foldM (fun j => j <=? n) n) by (try reflexivity; unfold loop_fuel; lia).
  replace (n + 1 - 1) with n by lia.
  rewrite proxHist_loop by lia. cbn [bind].
  set (ps := map (fun i => (u0 + tau * lambda * IZR (W_spec n (h g x y z) i))%R)
                 (Zseq 1 (Z.to_nat n))).
  set (s0 := insert (sortedHist_of (_bincenters g)) u0).
  destruct (fold_insert_element ps s0) as [Hperm Hsorted].
  assert (Hs0 : element s0 = [u0]) by reflexivity.
  rewrite Hs0 in Hperm.
  assert (Hcand : Permutation (element (fold_left insert ps s0)) (candidates n (h g x y z) u0 tau lambda)).
  { eapply perm_trans; [exact Hperm |]. unfold candidates. fold ps.
    eapply perm_trans; [apply Permutation_sym, Permutation_cons_append |].
    apply perm_skip. apply Permutation_sym, Permutation_rev. }
  assert (Hmed : is_median (candidates n (h g x y z) u0 tau lambda)
                   (median (fold_left insert ps s0))).
  { apply (is_median_perm _ _ _ Hcand). unfold median. apply sorted_median.
    - apply Hsorted. rewrite Hs0. constructor; constructor.
    - intros Hnil. rewrite Hnil in Hcand. apply Permutation_nil in Hcand. discriminate Hcand. }
  exists (median (fold_left insert ps s0)).
  split; [reflexivity | split; [exact Hmed |]].
  intros Hzero. destruct Hmed as (Hin & _).
  unfold candidates in Hin. destruct Hin as [E | Hin]; [now symmetry |].
  apply in_map_iff in Hin. destruct Hin as (i & E & Hi).
  apply Zseq_In in Hi. rewrite W_spec_zero in E by (try assumption; lia).
  rewrite <- E. cbn. ring.
Qed.

(** Two bins holding 3 and 1, [u = 0], [tau * lambda = 1]: [W_1 = -2],
    [W_2 = -4], the candidates are 0, -2 and -4, and the step returns -2. *)
Example proxHist_two_bins : proxHist 2 two_bin_store 0 0 0 0 1 1 = Ok (-2)%R.
Proof.
  destruct (proxHist_median 2 two_bin_store 0 0 0 0 1 1 ltac:(lia))
    as (m & Hrun & (Hin & Hlo & Hhi) & _).
  rewrite Hrun. f_equal.
  assert (Hc : candidates 2 (h two_bin_store 0 0 0) 0 1 1
               = [0; 0 + 1 * 1 * (-2); 0 + 1 * 1 * (-4)]%R) by reflexivity.
  rewrite Hc in Hin, Hlo, Hhi.
  rewrite !count_below_cons in Hlo. rewrite !count_above_cons in Hhi.
  cbn [count_below count_above filter length] in Hlo, Hhi.
  destruct Hin as [E | [E | [E | []]]]; subst m.
  - exfalso. repeat destruct (Rlt_dec _ _) in Hlo; try lra; cbn in Hlo; lia.
  - ring.
  - exfalso. repeat destruct (Rlt_dec _ _) in Hhi; try lra; cbn in Hhi; lia.
Qed.

(** A store of 4 x 4 x 4 voxels with ten bins and empty histograms: the
    call at voxel (0,0,0) with [voxdepth = 1], [depth = 1/2] and threshold
    1/5 leaves 1 in the last bin and 0 in the others. *)
Example updateHist_empty_observation :
  exists g',
    updateHist 10 (uniform_store 4 4 4 voxel0) 0 0 0 1 (/ 2) (/ 5) = Ok g'
    /\ bin (h g' 0 0 0) 9 = 1
    /\ (forall k, k <> 9 -> bin (h g' 0 0 0) k = 0).
Proof.
  rewrite updateHist_empty by (cbn; lra).
  unfold h_last_incr, last_index. rewrite bin_incr_in by lia. cbn [bind].
  eexists. split; [reflexivity |].
  rewrite h_set_h. cbn [bin]. split.
  - now rewrite upd_same.
  - intros k Hk. now rewrite upd_other.
Qed.

(** A loop whose test is [j <= 255] holds for every counter value: the
    counter runs up to 255, wraps to 0, and the turn for 0 reads the
    histogram through the operator at index 0. *)
Lemma Wi_loop_wraps (hist : histogram) (k : nat) :
  forall (fuel : nat) (lo r : Z),
    lo = 256 - Z.of_nat k -> 1 <= lo -> (k < fuel)%nat ->
    for_uchar fuel (fun j => j <=? 255)
      (fun j r => c <- hist_at 255 hist j ;; Ok (r + c)) (uchar lo) r
    = OutOfRange.
Proof.
  induction k as [| k IH]; intros fuel lo r Hlo Hpos Hfuel;
    (destruct fuel as [| fuel]; [lia |]); rewrite for_uchar_step.
  - subst lo. change (uchar (256 - Z.of_nat 0)) with 0.
    change (0 <=? 255) with true. cbv beta iota.
    unfold hist_at, op_index. now rewrite aget_out by lia.
  - rewrite uchar_small by lia.
    replace (lo <=? 255) with true by (symmetry; apply Z.leb_le; lia).
    rewrite hist_at_in by lia. cbn [bind].
    apply IH; lia.
Qed.

(** C1.  With 255 bins [proxHist] returns no median: the tests
    [j <= _histBins] of its loop and of the loops of [Wi] hold for every
    [unsigned char] counter, so the second loop of [Wi(1, ...)] runs past
    255, wraps to 0 and never leaves; its turn for 0 reads outside the
    histogram. *)
Theorem proxHist_255_bins (g : fusionData) (u0 : R) (x y z : Z) (tau lambda : R) :
  proxHist 255 g u0 x y z tau lambda = OutOfRange.
Proof.
  unfold proxHist, loop_fuel. rewrite for_uchar_step.
  change (1 <=? 255) with true. cbv beta iota.
  assert (HW : Wi 255 g 1 x y z = OutOfRange).
  { unfold Wi.
    rewrite (for_uchar_foldM (fun j => j <=? 1) 1) by (try reflexivity; unfold loop_fuel; lia).
    change (Z.to_nat (1 + 1 - 1)) with 1%nat.
    rewrite Wi_loop_minus by lia. cbn [bind].
    apply (Wi_loop_wraps (h g x y z) 254); unfold loop_fuel; lia. }
  unfold pi. rewrite HW. reflexivity.
Qed.

(** * Further properties of the store *)

(** ** Addressing *)

Lemma elements_exact (g : fusionData) :
  0 <= _w g -> 0 <= _h g -> 0 <= _d g -> _w g * _h g * _d g < 2 ^ 64 ->
  elements g = _w g * _h g * _d g.
Proof.
  intros Hw Hh Hd Hsize. unfold elements, size_t. apply Z.mod_small.
  split; [| exact Hsize]. repeat apply Z.mul_nonneg_nonneg; assumption.
Qed.

(** X1.  For a store whose voxel count fits [size_t], the linear address
    [nx + ny*_w + nz*_w*_h] of a voxel of the lattice lies in
    [0, elements()), and two voxels of the lattice with the same address are
    the same voxel. *)
Theorem voxel_addressing (g : fusionData) (x y z x' y' z' : Z) :
  in_lattice g x y z -> in_lattice g x' y' z' ->
  _w g * _h g * _d g < 2 ^ 64 ->
  0 <= offset g x y z < elements g
  /\ (offset g x y z = offset g x' y' z' -> x = x' /\ y = y' /\ z = z').
Proof.
  intros (Hx & Hy & Hz) (Hx' & Hy' & Hz') Hsize.
  rewrite elements_exact by lia.
  split.
  - apply (offset_in_range g x y z Hx Hy Hz). lia.
  - apply offset_injective; try assumption. lia.
Qed.

Lemma voxel_addressing_witness :
  in_lattice line_store 0 0 0 /\ in_lattice line_store 1 0 0
  /\ _w line_store * _h line_store * _d line_store < 2 ^ 64
  /\ 0 <= offset line_store 0 0 0 < elements line_store
  /\ (offset line_store 0 0 0 = offset line_store 1 0 0 -> 0 = 1 /\ 0 = 0 /\ 0 = 0).
Proof.
  assert (H0 : in_lattice line_store 0 0 0) by (unfold in_lattice; cbn; lia).
  assert (H1 : in_lattice line_store 1 0 0) by (unfold in_lattice; cbn; lia).
  assert (Hs : _w line_store * _h line_store * _d line_store < 2 ^ 64) by (cbn; lia).
  split; [exact H0 | split; [exact H1 | split; [exact Hs |]]].
  exact (voxel_addressing line_store 0 0 0 1 0 0 H0 H1 Hs).
Defined.

(** ** What the difference operators read *)

Lemma float3_eq (a b : float3) :
  Float3.x a = Float3.x b -> Float3.y a = Float3.y b -> Float3.z a = Float3.z b -> a = b.
Proof. destruct a, b. cbn. intros -> -> ->. reflexivity. Qed.

(** One component of a forward gradient, for a field [f] read through an
    accessor: the difference to the next voxel below the last index, 0 at the
    last index. *)
Lemma forward_component_ext (w k : Z) (d d' : R) :
  0 <= w < 2 ^ 64 -> 0 <= k < w ->
  (k + 1 < w -> d' = d) ->
  (if k <? size_t (w - 1) then d' else 0%R) = (if k <? size_t (w - 1) then d else 0%R).
Proof.
  intros Hw Hk Hd. rewrite size_t_pred by lia.
  destruct (Z.ltb_spec k (w - 1)); [apply Hd; lia | reflexivity].
Qed.

(** X2.  At a voxel of the lattice the difference operators read voxels of
    the lattice only: two stores of the same sizes whose [u] (resp. [v],
    [p]) fields agree on the lattice have the same [gradUFwd] (resp.
    [gradVFwd], [divPBwd]) there, whatever lies outside the lattice and in
    the other fields. *)
Theorem operators_read_inside_lattice (g g' : fusionData) (x y z : Z) :
  sizes_in_size_t g -> same_sizes g g' -> in_lattice g x y z ->
  ((forall a b c, in_lattice g a b c -> u g' a b c = u g a b c) ->
     gradUFwd g' x y z = gradUFwd g x y z)
  /\ ((forall a b c, in_lattice g a b c -> v g' a b c = v g a b c) ->
     gradVFwd g' x y z = gradVFwd g x y z)
  /\ ((forall a b c, in_lattice g a b c -> p g' a b c = p g a b c) ->
     divPBwd g' x y z = divPBwd g x y z).
Proof.
  intros (Hw & Hh & Hd) (Ew & Eh & Ed) (Hx & Hy & Hz).
  split; [| split]; intros Hf.
  - apply float3_eq.
    + rewrite !gradUFwd_x, Ew. apply forward_component_ext; try assumption.
      intros Hn. rewrite !Hf by (unfold in_lattice; lia). reflexivity.
    + rewrite !gradUFwd_y, Eh. apply forward_component_ext; try assumption.
      intros Hn. rewrite !Hf by (unfold in_lattice; lia). reflexivity.
    + rewrite !gradUFwd_z, Ed. apply forward_component_ext; try assumption.
      intros Hn. rewrite !Hf by (unfold in_lattice; lia). reflexivity.
  - apply float3_eq.
    + rewrite !gradVFwd_x, Ew. apply forward_component_ext; try assumption.
      intros Hn. rewrite !Hf by (unfold in_lattice; lia). reflexivity.
    + rewrite !gradVFwd_y, Eh. apply forward_component_ext; try assumption.
      intros Hn. rewrite !Hf by (unfold in_lattice; lia). reflexivity.
    + rewrite !gradVFwd_z, Ed. apply forward_component_ext; try assumption.
      intros Hn. rewrite !Hf by (unfold in_lattice; lia). reflexivity.
  - rewrite !divPBwd_terms. rewrite (Hf x y z) by (unfold in_lattice; lia).
    assert (Bx : backward_term x (Float3.x (p g' (x - 1) y z))
                 = backward_term x (Float3.x (p g (x - 1) y z))).
    { unfold backward_term. destruct (Z.ltb_spec 0 x); [| reflexivity].
      rewrite Hf by (unfold in_lattice; lia). reflexivity. }
    assert (By : backward_term y (Float3.y (p g' x (y - 1) z))
                 = backward_term y (Float3.y (p g x (y - 1) z))).
    { unfold backward_term. destruct (Z.ltb_spec 0 y); [| reflexivity].
      rewrite Hf by (unfold in_lattice; lia). reflexivity. }
    assert (Bz : backward_term z (Float3.z (p g' x y (z - 1)))
                 = backward_term z (Float3.z (p g x y (z - 1)))).
    { unfold backward_term. destruct (Z.ltb_spec 0 z); [| reflexivity].
      rewrite Hf by (unfold in_lattice; lia). reflexivity. }
    rewrite Bx, By, Bz. reflexivity.
Qed.

Lemma line_stores_agree (a b c : Z) :
  in_lattice line_store a b c ->
  _voxel line_store_padded (offset line_store_padded a b c)
  = _voxel line_store (offset line_store a b c).
Proof.
  unfold in_lattice. cbn [_w _h _d line_store]. intros (Ha & Hb & Hc).
  replace b with 0 by lia. replace c with 0 by lia.
  destruct (Z.eq_dec a 0) as [-> | Ha0]; [reflexivity |].
  replace a with 1 by lia. reflexivity.
Qed.

Lemma operators_read_inside_lattice_witness :
  sizes_in_size_t line_store /\ same_sizes line_store line_store_padded
  /\ in_lattice line_store 0 0 0
  /\ gradUFwd line_store_padded 0 0 0 = gradUFwd line_store 0 0 0
  /\ gradVFwd line_store_padded 0 0 0 = gradVFwd line_store 0 0 0
  /\ divPBwd line_store_padded 0 0 0 = divPBwd line_store 0 0 0.
Proof.
  assert (Hs : sizes_in_size_t line_store) by (unfold sizes_in_size_t; cbn; lia).
  assert (He : same_sizes line_store line_store_padded) by (repeat split).
  assert (Hin : in_lattice line_store 0 0 0) by (unfold in_lattice; cbn; lia).
  destruct (operators_read_inside_lattice line_store line_store_padded 0 0 0 Hs He Hin)
    as (HU & HV & HP).
  split; [exact Hs | split; [exact He | split; [exact Hin |]]].
  split; [apply HU; intros a b c H; unfold u; now rewrite line_stores_agree |].
  split; [apply HV; intros a b c H; unfold v; now rewrite line_stores_agree |].
  apply HP. intros a b c H. unfold p. now rewrite line_stores_agree.
Defined.

(** X3.  On a store whose [u] field (resp. [v] field) is constant over the
    lattice, [gradUFwd] (resp. [gradVFwd]) is the zero vector at every voxel
    of the lattice. *)
Theorem gradient_of_constant_field (g : fusionData) (c0 : R) (x y z : Z) :
  sizes_in_size_t g -> in_lattice g x y z ->
  ((forall a b c, in_lattice g a b c -> u g a b c = c0) ->
     gradUFwd g x y z = make_float3 0 0 0)
  /\ ((forall a b c, in_lattice g a b c -> v g a b c = c0) ->
     gradVFwd g x y z = make_float3 0 0 0).
Proof.
  intros (Hw & Hh & Hd) (Hx & Hy & Hz).
  assert (Hzero : forall w k d, 0 <= w < 2 ^ 64 -> 0 <= k < w -> (k + 1 < w -> d = 0%R) ->
                    (if k <? size_t (w - 1) then d else 0%R) = 0%R).
  { intros w k d Hw' Hk Hd'. rewrite size_t_pred by lia.
    destruct (Z.ltb_spec k (w - 1)); [apply Hd'; lia | reflexivity]. }
  split; intros Hf; apply float3_eq; cbn [Float3.x Float3.y Float3.z].
  - rewrite gradUFwd_x. apply Hzero; try assumption.
    intros Hn. rewrite !Hf by (unfold in_lattice; lia). ring.
  - rewrite gradUFwd_y. apply Hzero; try assumption.
    intros Hn. rewrite !Hf by (unfold in_lattice; lia). ring.
  - rewrite gradUFwd_z. apply Hzero; try assumption.
    intros Hn. rewrite !Hf by (unfold in_lattice; lia). ring.
  - rewrite gradVFwd_x. apply Hzero; try assumption.
    intros Hn. rewrite !Hf by (unfold in_lattice; lia). ring.
  - rewrite gradVFwd_y. apply Hzero; try assumption.
    intros Hn. rewrite !Hf by (unfold in_lattice; lia). ring.
  - rewrite gradVFwd_z. apply Hzero; try assumption.
    intros Hn. rewrite !Hf by (unfold in_lattice; lia). ring.
Qed.

Lemma gradient_of_constant_field_witness :
  let g := uniform_store 4 4 4 (Voxel.make 5 3 (make_float3 1 2 3) hist0) in
  sizes_in_size_t g /\ in_lattice g 1 2 3
  /\ gradUFwd g 1 2 3 = make_float3 0 0 0
  /\ gradVFwd g 1 2 3 = make_float3 0 0 0.
Proof.
  intros g.
  assert (Hs : sizes_in_size_t g) by (unfold sizes_in_size_t; cbn; lia).
  assert (Hin : in_lattice g 1 2 3) by (unfold in_lattice; cbn; lia).
  destruct (gradient_of_constant_field g 5 1 2 3 Hs Hin) as (HU & _).
  destruct (gradient_of_constant_field g 3 1 2 3 Hs Hin) as (_ & HV).
  split; [exact Hs | split; [exact Hin |]].
  split; [apply HU; reflexivity | apply HV; reflexivity].
Defined.

(** ** Sums of differences *)

Lemma sum_upto_telescope (a : Z -> R) (m : nat) :
  sum_upto m (fun k => (a (k + 1)%Z - a k)%R) = (a (Z.of_nat m) - a 0%Z)%R.
Proof.
  induction m as [| m IH].
  - cbn. ring.
  - cbn [sum_upto]. rewrite IH.
    replace (Z.of_nat m + 1) with (Z.of_nat (S m)) by lia. ring.
Qed.

(** The forward differences along a line of [n] voxels, the last one being
    0, sum to the difference between the two ends of the line. *)
Lemma forward_differences_sum (a : Z -> R) (w : Z) :
  0 < w < 2 ^ 64 ->
  sum_upto (Z.to_nat w) (fun k => if k <? size_t (w - 1) then (a (k + 1)%Z - a k)%R else 0%R)
  = (a (w - 1)%Z - a 0%Z)%R.
Proof.
  intros Hw. rewrite size_t_pred by lia.
  replace (Z.to_nat w) with (S (Z.to_nat (w - 1))) by lia.
  cbn [sum_upto]. rewrite Z2Nat.id by lia. rewrite Z.ltb_irrefl.
  rewrite (sum_upto_ext _ _ (fun k => (a (k + 1)%Z - a k)%R)).
  - rewrite sum_upto_telescope. rewrite Z2Nat.id by lia. ring.
  - intros k Hk. replace (k <? w - 1) with true by (symmetry; apply Z.ltb_lt; lia).
    reflexivity.
Qed.

(** X4.  Along every line of the lattice the forward differences telescope:
    the x components of [gradUFwd] over [0 <= x < _w] sum to
    [u(_w-1, y, z) - u(0, y, z)], and likewise for the y components along y
    and the z components along z. *)
Theorem gradient_telescopes (g : fusionData) (x y z : Z) :
  (0 < _w g < 2 ^ 64 ->
     sum_upto (Z.to_nat (_w g)) (fun k => Float3.x (gradUFwd g k y z))
     = (u g (_w g - 1) y z - u g 0 y z)%R)
  /\ (0 < _h g < 2 ^ 64 ->
     sum_upto (Z.to_nat (_h g)) (fun k => Float3.y (gradUFwd g x k z))
     = (u g x (_h g - 1) z - u g x 0 z)%R)
  /\ (0 < _d g < 2 ^ 64 ->
     sum_upto (Z.to_nat (_d g)) (fun k => Float3.z (gradUFwd g x y k))
     = (u g x y (_d g - 1) - u g x y 0)%R).
Proof.
  split; [| split]; intros Hn.
  - rewrite (sum_upto_ext _ _ (fun k => if k <? size_t (_w g - 1)
                                        then (u g (k + 1) y z - u g k y z)%R else 0%R))
      by (intros k _; apply gradUFwd_x).
    apply (forward_differences_sum (fun k => u g k y z)). exact Hn.
  - rewrite (sum_upto_ext _ _ (fun k => if k <? size_t (_h g - 1)
                                        then (u g x (k + 1) z - u g x k z)%R else 0%R))
      by (intros k _; apply gradUFwd_y).
    apply (forward_differences_sum (fun k => u g x k z)). exact Hn.
  - rewrite (sum_upto_ext _ _ (fun k => if k <? size_t (_d g - 1)
                                        then (u g x y (k + 1) - u g x y k)%R else 0%R))
      by (intros k _; apply gradUFwd_z).
    apply (forward_differences_sum (fun k => u g x y k)). exact Hn.
Qed.

Lemma gradient_telescopes_witness :
  (0 < _w line_store < 2 ^ 64 /\ 0 < _h line_store < 2 ^ 64 /\ 0 < _d line_store < 2 ^ 64)
  /\ sum_upto (Z.to_nat (_w line_store)) (fun k => Float3.x (gradUFwd line_store k 0 0))
     = (u line_store (_w line_store - 1) 0 0 - u line_store 0 0 0)%R
  /\ sum_upto (Z.to_nat (_h line_store)) (fun k => Float3.y (gradUFwd line_store 0 k 0))
     = (u line_store 0 (_h line_store - 1) 0 - u line_store 0 0 0)%R
  /\ sum_upto (Z.to_nat (_d line_store)) (fun k => Float3.z (gradUFwd line_store 0 0 k))
     = (u line_store 0 0 (_d line_store - 1) - u line_store 0 0 0)%R.
Proof.
  assert (Hw : 0 < _w line_store < 2 ^ 64) by (cbn; lia).
  assert (Hh : 0 < _h line_store < 2 ^ 64) by (cbn; lia).
  assert (Hd : 0 < _d line_store < 2 ^ 64) by (cbn; lia).
  destruct (gradient_telescopes line_store 0 0 0) as (HX & HY & HZ).
  split; [split; [exact Hw | split; [exact Hh | exact Hd]] |].
  split; [exact (HX Hw) | split; [exact (HY Hh) | exact (HZ Hd)]].
Defined.

Lemma sum2_ext (n1 n2 : nat) (F F' : Z -> Z -> R) :
  (forall a b, 0 <= a < Z.of_nat n1 -> 0 <= b < Z.of_nat n2 -> F a b = F' a b) ->
  sum2 n1 n2 F = sum2 n1 n2 F'.
Proof.
  intros H. unfold sum2. apply sum_upto_ext. intros b Hb.
  apply sum_upto_ext. intros a Ha. now apply H.
Qed.

(** The backward differences along a line sum to the last value. *)
Lemma backward_differences_sum (b : Z -> R) (m : nat) :
  sum_upto (S m) (fun k => (b k - backward_term k (b (k - 1)%Z))%R) = b (Z.of_nat m).
Proof.
  induction m as [| m IH].
  - cbn. unfold backward_term. cbn. ring.
  - change (sum_upto (S (S m)) (fun k => (b k - backward_term k (b (k - 1)%Z))%R))
      with (sum_upto (S m) (fun k => (b k - backward_term k (b (k - 1)%Z))%R)
            + (b (Z.of_nat (S m))
               - backward_term (Z.of_nat (S m)) (b (Z.of_nat (S m) - 1)%Z)))%R.
    rewrite IH. rewrite backward_term_pos by lia.
    replace (Z.of_nat (S m) - 1) with (Z.of_nat m) by lia. ring.
Qed.

(** Summation by parts along a line of [n > 0] voxels, with the term of the
    last voxel. *)
Lemma sum_by_parts_boundary (a b : Z -> R) (n : nat) :
  (0 < n)%nat ->
  sum_upto n (fun k => ((if k <? Z.of_nat n - 1 then a (k + 1)%Z - a k else 0) * b k)%R)
  = (- sum_upto n (fun k => (a k * (b k - backward_term k (b (k - 1)%Z)))%R)
     + a (Z.of_nat n - 1)%Z * b (Z.of_nat n - 1)%Z)%R.
Proof.
  destruct n as [| m]; intros Hn; [lia |].
  replace (Z.of_nat (S m) - 1) with (Z.of_nat m) by lia.
  change (sum_upto (S m)
            (fun k => ((if k <? Z.of_nat m then a (k + 1)%Z - a k else 0) * b k)%R))
    with (sum_upto m
            (fun k => ((if k <? Z.of_nat m then a (k + 1)%Z - a k else 0) * b k)%R)
          + (if Z.of_nat m <? Z.of_nat m then a (Z.of_nat m + 1)%Z - a (Z.of_nat m) else 0)
            * b (Z.of_nat m))%R.
  rewrite Z.ltb_irrefl.
  rewrite (sum_upto_ext m _ (fun k => ((a (k + 1)%Z - a k) * b k)%R)).
  - rewrite sum_by_parts_open. ring.
  - intros k Hk. replace (k <? Z.of_nat m) with true by (symmetry; apply Z.ltb_lt; lia).
    reflexivity.
Qed.

(** The two identities along the first axis of a lattice. *)
Lemma flux_first_axis (nw nh nd : nat) (P : Z -> Z -> Z -> R) :
  (0 < nw)%nat ->
  sum3 nw nh nd (fun x y z => (P x y z - backward_term x (P (x - 1)%Z y z))%R)
  = sum2 nh nd (fun y z => P (Z.of_nat nw - 1)%Z y z).
Proof.
  intros Hn. unfold sum3, sum2.
  apply sum_upto_ext. intros z _. apply sum_upto_ext. intros y _.
  destruct nw as [| m]; [lia |].
  rewrite (backward_differences_sum (fun x => P x y z) m).
  f_equal. lia.
Qed.

Lemma green_first_axis (nw nh nd : nat) (U P : Z -> Z -> Z -> R) :
  (0 < nw)%nat ->
  sum3 nw nh nd
    (fun x y z => ((if x <? Z.of_nat nw - 1 then U (x + 1)%Z y z - U x y z else 0) * P x y z)%R)
  = (- sum3 nw nh nd
         (fun x y z => (U x y z * (P x y z - backward_term x (P (x - 1)%Z y z)))%R)
     + sum2 nh nd (fun y z => (U (Z.of_nat nw - 1)%Z y z * P (Z.of_nat nw - 1)%Z y z)%R))%R.
Proof.
  intros Hn. unfold sum3, sum2.
  rewrite <- sum_upto_opp, <- sum_upto_plus. apply sum_upto_ext. intros z _.
  rewrite <- sum_upto_opp, <- sum_upto_plus. apply sum_upto_ext. intros y _.
  apply (sum_by_parts_boundary (fun x => U x y z) (fun x => P x y z) nw Hn).
Qed.

Lemma flux_second_axis (nw nh nd : nat) (P : Z -> Z -> Z -> R) :
  (0 < nh)%nat ->
  sum3 nw nh nd (fun x y z => (P x y z - backward_term y (P x (y - 1)%Z z))%R)
  = sum2 nw nd (fun x z => P x (Z.of_nat nh - 1)%Z z).
Proof.
  intros Hn. rewrite sum3_swap_xy.
  apply (flux_first_axis nh nw nd (fun y x z => P x y z) Hn).
Qed.

Lemma flux_third_axis (nw nh nd : nat) (P : Z -> Z -> Z -> R) :
  (0 < nd)%nat ->
  sum3 nw nh nd (fun x y z => (P x y z - backward_term z (P x y (z - 1)%Z))%R)
  = sum2 nw nh (fun x y => P x y (Z.of_nat nd - 1)%Z).
Proof.
  intros Hn. rewrite sum3_swap_yz, sum3_swap_xy.
  apply (flux_first_axis nd nw nh (fun z x y => P x y z) Hn).
Qed.

Lemma green_second_axis (nw nh nd : nat) (U P : Z -> Z -> Z -> R) :
  (0 < nh)%nat ->
  sum3 nw nh nd
    (fun x y z => ((if y <? Z.of_nat nh - 1 then U x (y + 1)%Z z - U x y z else 0) * P x y z)%R)
  = (- sum3 nw nh nd
         (fun x y z => (U x y z * (P x y z - backward_term y (P x (y - 1)%Z z)))%R)
     + sum2 nw nd (fun x z => (U x (Z.of_nat nh - 1)%Z z * P x (Z.of_nat nh - 1)%Z z)%R))%R.
Proof.
  intros Hn. rewrite sum3_swap_xy. rewrite (sum3_swap_xy nw nh nd).
  apply (green_first_axis nh nw nd (fun y x z => U x y z) (fun y x z => P x y z) Hn).
Qed.

Lemma green_third_axis (nw nh nd : nat) (U P : Z -> Z -> Z -> R) :
  (0 < nd)%nat ->
  sum3 nw nh nd
    (fun x y z => ((if z <? Z.of_nat nd - 1 then U x y (z + 1)%Z - U x y z else 0) * P x y z)%R)
  = (- sum3 nw nh nd
         (fun x y z => (U x y z * (P x y z - backward_term z (P x y (z - 1)%Z)))%R)
     + sum2 nw nh (fun x y => (U x y (Z.of_nat nd - 1)%Z * P x y (Z.of_nat nd - 1)%Z)%R))%R.
Proof.
  intros Hn. rewrite sum3_swap_yz, sum3_swap_xy.
  rewrite (sum3_swap_yz nw nh nd), (sum3_swap_xy nw nd nh).
  apply (green_first_axis nd nw nh (fun z x y => U x y z) (fun z x y => P x y z) Hn).
Qed.

(** X5.  The sum of [divPBwd] over all voxels of a non-empty lattice is the
    flux of the dual field through the three upper faces: the sum of [p.x]
    over the face [x = _w - 1], plus the sum of [p.y] over [y = _h - 1], plus
    the sum of [p.z] over [z = _d - 1]. *)
Theorem divergence_flux (g : fusionData) :
  0 < _w g -> 0 < _h g -> 0 < _d g ->
  sum_voxels g (fun x y z => divPBwd g x y z)
  = (sum2 (Z.to_nat (_h g)) (Z.to_nat (_d g)) (fun y z => Float3.x (p g (_w g - 1) y z))
     + sum2 (Z.to_nat (_w g)) (Z.to_nat (_d g)) (fun x z => Float3.y (p g x (_h g - 1) z))
     + sum2 (Z.to_nat (_w g)) (Z.to_nat (_h g)) (fun x y => Float3.z (p g x y (_d g - 1))))%R.
Proof.
  intros Hw Hh Hd. unfold sum_voxels.
  set (nw := Z.to_nat (_w g)). set (nh := Z.to_nat (_h g)). set (nd := Z.to_nat (_d g)).
  assert (Ew : Z.of_nat nw - 1 = _w g - 1) by (subst nw; lia).
  assert (Eh : Z.of_nat nh - 1 = _h g - 1) by (subst nh; lia).
  assert (Ed : Z.of_nat nd - 1 = _d g - 1) by (subst nd; lia).
  pose (PX := fun x y z => Float3.x (p g x y z)).
  pose (PY := fun x y z => Float3.y (p g x y z)).
  pose (PZ := fun x y z => Float3.z (p g x y z)).
  pose (DX := fun x y z => (PX x y z - backward_term x (PX (x - 1)%Z y z))%R).
  pose (DY := fun x y z => (PY x y z - backward_term y (PY x (y - 1)%Z z))%R).
  pose (DZ := fun x y z => (PZ x y z - backward_term z (PZ x y (z - 1)%Z))%R).
  rewrite (sum3_ext nw nh nd _ (fun x y z => (DX x y z + DY x y z + DZ x y z)%R)).
  2:{ intros x y z _ _ _. rewrite divPBwd_terms. subst DX DY DZ PX PY PZ. cbv beta. ring. }
  rewrite (sum3_plus nw nh nd (fun x y z => (DX x y z + DY x y z)%R) DZ).
  rewrite (sum3_plus nw nh nd DX DY).
  assert (HX := flux_first_axis nw nh nd PX ltac:(subst nw; lia)).
  assert (HY := flux_second_axis nw nh nd PY ltac:(subst nh; lia)).
  assert (HZ := flux_third_axis nw nh nd PZ ltac:(subst nd; lia)).
  fold DX in HX. fold DY in HY. fold DZ in HZ.
  rewrite HX, HY, HZ. rewrite Ew, Eh, Ed. reflexivity.
Qed.

Lemma divergence_flux_witness :
  (0 < _w line_store /\ 0 < _h line_store /\ 0 < _d line_store)
  /\ sum_voxels line_store (fun x y z => divPBwd line_store x y z)
     = (sum2 (Z.to_nat (_h line_store)) (Z.to_nat (_d line_store))
          (fun y z => Float3.x (p line_store (_w line_store - 1) y z))
        + sum2 (Z.to_nat (_w line_store)) (Z.to_nat (_d line_store))
            (fun x z => Float3.y (p line_store x (_h line_store - 1) z))
        + sum2 (Z.to_nat (_w line_store)) (Z.to_nat (_h line_store))
            (fun x y => Float3.z (p line_store x y (_d line_store - 1))))%R.
Proof.
  assert (Hw : 0 < _w line_store) by (cbn; lia).
  assert (Hh : 0 < _h line_store) by (cbn; lia).
  assert (Hd : 0 < _d line_store) by (cbn; lia).
  split; [split; [exact Hw | split; [exact Hh | exact Hd]] |].
  exact (divergence_flux line_store Hw Hh Hd).
Defined.

(** X6.  For every store with a non-empty lattice and every content of its
    [u] and [p] fields, the sum over all voxels of [gradUFwd . p] plus the
    sum over all voxels of [u * divPBwd] is the sum of [u * p.x] over the
    face [x = _w - 1], plus the sum of [u * p.y] over [y = _h - 1], plus the
    sum of [u * p.z] over [z = _d - 1]. *)
Theorem green_identity (g : fusionData) :
  0 < _w g < 2 ^ 64 -> 0 < _h g < 2 ^ 64 -> 0 < _d g < 2 ^ 64 ->
  (sum_voxels g (fun x y z => dot (gradUFwd g x y z) (p g x y z))
   + sum_voxels g (fun x y z => u g x y z * divPBwd g x y z))%R
  = (sum2 (Z.to_nat (_h g)) (Z.to_nat (_d g))
       (fun y z => u g (_w g - 1) y z * Float3.x (p g (_w g - 1) y z))
     + sum2 (Z.to_nat (_w g)) (Z.to_nat (_d g))
         (fun x z => u g x (_h g - 1) z * Float3.y (p g x (_h g - 1) z))
     + sum2 (Z.to_nat (_w g)) (Z.to_nat (_h g))
         (fun x y => u g x y (_d g - 1) * Float3.z (p g x y (_d g - 1))))%R.
Proof.
  intros Hw Hh Hd. unfold sum_voxels.
  set (nw := Z.to_nat (_w g)). set (nh := Z.to_nat (_h g)). set (nd := Z.to_nat (_d g)).
  assert (Ew : Z.of_nat nw - 1 = _w g - 1) by (subst nw; lia).
  assert (Eh : Z.of_nat nh - 1 = _h g - 1) by (subst nh; lia).
  assert (Ed : Z.of_nat nd - 1 = _d g - 1) by (subst nd; lia).
  pose (U := fun x y z => u g x y z).
  pose (PX := fun x y z => Float3.x (p g x y z)).
  pose (PY := fun x y z => Float3.y (p g x y z)).
  pose (PZ := fun x y z => Float3.z (p g x y z)).
  pose (GX := fun x y z =>
               ((if x <? Z.of_nat nw - 1 then U (x + 1)%Z y z - U x y z else 0) * PX x y z)%R).
  pose (GY := fun x y z =>
               ((if y <? Z.of_nat nh - 1 then U x (y + 1)%Z z - U x y z else 0) * PY x y z)%R).
  pose (GZ := fun x y z =>
               ((if z <? Z.of_nat nd - 1 then U x y (z + 1)%Z - U x y z else 0) * PZ x y z)%R).
  pose (DX := fun x y z => (U x y z * (PX x y z - backward_term x (PX (x - 1)%Z y z)))%R).
  pose (DY := fun x y z => (U x y z * (PY x y z - backward_term y (PY x (y - 1)%Z z)))%R).
  pose (DZ := fun x y z => (U x y z * (PZ x y z - backward_term z (PZ x y (z - 1)%Z)))%R).
  rewrite (sum3_ext nw nh nd (fun x y z => dot (gradUFwd g x y z) (p g x y z))
             (fun x y z => (GX x y z + GY x y z + GZ x y z)%R)).
  2:{ intros x y z Hx Hy Hz. unfold dot.
      rewrite gradUFwd_x, gradUFwd_y, gradUFwd_z.
      rewrite !size_t_pred by lia. rewrite <- Ew, <- Eh, <- Ed. reflexivity. }
  rewrite (sum3_ext nw nh nd (fun x y z => (u g x y z * divPBwd g x y z)%R)
             (fun x y z => (DX x y z + DY x y z + DZ x y z)%R)).
  2:{ intros x y z _ _ _. rewrite divPBwd_terms. subst DX DY DZ U PX PY PZ. cbv beta. ring. }
  rewrite (sum3_plus nw nh nd (fun x y z => (GX x y z + GY x y z)%R) GZ).
  rewrite (sum3_plus nw nh nd GX GY).
  rewrite (sum3_plus nw nh nd (fun x y z => (DX x y z + DY x y z)%R) DZ).
  rewrite (sum3_plus nw nh nd DX DY).
  assert (HX := green_first_axis nw nh nd U PX ltac:(subst nw; lia)).
  assert (HY := green_second_axis nw nh nd U PY ltac:(subst nh; lia)).
  assert (HZ := green_third_axis nw nh nd U PZ ltac:(subst nd; lia)).
  fold GX DX in HX. fold GY DY in HY. fold GZ DZ in HZ.
  rewrite HX, HY, HZ. rewrite Ew, Eh, Ed. subst U PX PY PZ. cbv beta. ring.
Qed.

Lemma green_identity_witness :
  (0 < _w line_store < 2 ^ 64 /\ 0 < _h line_store < 2 ^ 64 /\ 0 < _d line_store < 2 ^ 64)
  /\ (sum_voxels line_store (fun x y z => dot (gradUFwd line_store x y z) (p line_store x y z))
      + sum_voxels line_store (fun x y z => u line_store x y z * divPBwd line_store x y z))%R
     = (sum2 (Z.to_nat (_h line_store)) (Z.to_nat (_d line_store))
          (fun y z => u line_store (_w line_store - 1) y z
                      * Float3.x (p line_store (_w line_store - 1) y z))
        + sum2 (Z.to_nat (_w line_store)) (Z.to_nat (_d line_store))
            (fun x z => u line_store x (_h line_store - 1) z
                        * Float3.y (p line_store x (_h line_store - 1) z))
        + sum2 (Z.to_nat (_w line_store)) (Z.to_nat (_h line_store))
            (fun x y => u line_store x y (_d line_store - 1)
                        * Float3.z (p line_store x y (_d line_store - 1))))%R.
Proof.
  assert (Hw : 0 < _w line_store < 2 ^ 64) by (cbn; lia).
  assert (Hh : 0 < _h line_store < 2 ^ 64) by (cbn; lia).
  assert (Hd : 0 < _d line_store < 2 ^ 64) by (cbn; lia).
  split; [split; [exact Hw | split; [exact Hh | exact Hd]] |].
  exact (green_identity line_store Hw Hh Hd).
Defined.

(** ** More on the projection *)

Lemma sum_squares_norm2 (a : float3) : sum_squares a = (norm2 a * norm2 a)%R.
Proof. unfold sum_squares. symmetry. apply norm2_square. Qed.

Lemma norm2_nonneg (a : float3) : (0 <= norm2 a)%R.
Proof. unfold norm2. apply sqrt_pos. Qed.

Lemma projectUnitBall_inside (a : float3) :
  (norm2 a <= 1)%R -> projectUnitBall (of_float3 a) = Ok (of_float3 a).
Proof.
  intros Hle. pose proof (norm2_nonneg a) as H0.
  pose proof overflow_threshold_large as HT.
  rewrite projectUnitBall_value.
  - now rewrite unit_ball_projection_inside.
  - rewrite sum_squares_norm2. nra.
Qed.

Lemma norm2_zero : norm2 (make_float3 0 0 0) = 0%R.
Proof.
  unfold norm2. cbn [Float3.x Float3.y Float3.z].
  replace (0 * 0 + 0 * 0 + 0 * 0)%R with 0%R by ring. apply sqrt_0.
Qed.

(** X7.  With overflow modelled and rounding aside, [projectUnitBall]
    returns for every vector of finite components; its result has norm
    [min(1, |p|)] when the squared norm stays below the overflow threshold
    and norm 0 when it does not, hence norm at most 1 in both cases; and
    projecting the result again gives the same vector. *)
Theorem projectUnitBall_idempotent (a : float3) :
  exists q,
    projectUnitBall (of_float3 a) = Ok (of_float3 q)
    /\ norm2 q = (if Rle_dec overflow_threshold (sum_squares a)
                  then 0 else Rmin 1 (norm2 a))%R
    /\ (norm2 q <= 1)%R
    /\ projectUnitBall (of_float3 q) = Ok (of_float3 q).
Proof.
  destruct (Rle_dec overflow_threshold (sum_squares a)) as [Hov | Hin].
  - exists (make_float3 0 0 0). rewrite projectUnitBall_overflow by assumption.
    rewrite norm2_zero. split; [reflexivity | split; [reflexivity | split; [lra |]]].
    apply projectUnitBall_inside. rewrite norm2_zero. lra.
  - assert (Hlt : (sum_squares a < overflow_threshold)%R) by lra.
    rewrite (projectUnitBall_value a Hlt).
    destruct (Rle_lt_dec (norm2 a) 1) as [Hle | Hgt].
    + exists a. rewrite unit_ball_projection_inside by assumption.
      rewrite Rmin_right by assumption.
      split; [reflexivity | split; [reflexivity | split; [assumption |]]].
      now apply projectUnitBall_inside.
    + destruct (unit_ball_projection_outside a Hgt) as [Hval Hnorm].
      exists (scale (/ norm2 a) a). rewrite Hval, Hnorm. rewrite Rmin_left by lra.
      split; [reflexivity | split; [reflexivity | split; [lra |]]].
      apply projectUnitBall_inside. rewrite Hnorm. lra.
Qed.

(** ** More on the bin parameters *)

Lemma interior_center_step (n i : Z) :
  4 <= n -> (interior_center n (i + 1) - interior_center n i = 2 / IZR (n - 3))%R.
Proof.
  intros Hn. unfold interior_center.
  assert (IZR (n - 3) <> 0%R) by (apply not_0_IZR; lia).
  replace (i + 1 - 1) with (i - 1 + 1) by lia. rewrite plus_IZR. field. assumption.
Qed.

Lemma interior_center_mirror (n i : Z) :
  4 <= n -> (interior_center n (n - 1 - i) = - interior_center n i)%R.
Proof.
  intros Hn. unfold interior_center.
  assert (IZR (n - 3) <> 0%R) by (apply not_0_IZR; lia).
  replace (n - 1 - i - 1) with (n - 3 - (i - 1)) by lia. rewrite (minus_IZR (n - 3)).
  field. assumption.
Qed.

(** X8.  In exact arithmetic, in a store constructed with [4 <= _histBins]
    bins, consecutive interior bin centers are [binStep()] apart and the
    centers are mirrored about 0 ([binCenter(_histBins-1-i) = -binCenter(i)]);
    the binary32 values computed by the source agree with this up to
    rounding only.  Every center lies in [-1, 1]. *)
Theorem bin_center_layout (n w h d : Z) (mem : Z -> fusionvoxel) (pitch spitch : Z)
  (bc : array R) :
  4 <= n <= 255 ->
  exists g,
    construct n w h d mem pitch spitch bc = Ok g
    /\ (forall i, 1 <= i -> i + 1 <= n - 2 ->
          exists c c', binCenter n g i = Ok c /\ binCenter n g (i + 1) = Ok c'
                       /\ (c' - c = binStep g)%R)
    /\ (forall i, 0 <= i < n ->
          exists c c', binCenter n g i = Ok c /\ binCenter n g (n - 1 - i) = Ok c'
                       /\ (c' = - c)%R)
    /\ (forall i, 0 <= i < n -> exists c, binCenter n g i = Ok c /\ (-1 <= c <= 1)%R).
Proof.
  intros Hn.
  destruct (construct_centers n w h d mem pitch spitch bc Hn)
    as (g & Hg & Hstep & H0 & Hlast & Hint).
  exists g. split; [exact Hg |]. split; [| split].
  - intros i Hi Hi'. exists (_bincenters g i), (_bincenters g (i + 1)).
    rewrite !binCenter_stored by lia. repeat split.
    rewrite !Hint by lia. rewrite Hstep. apply interior_center_step. lia.
  - intros i Hi. exists (_bincenters g i), (_bincenters g (n - 1 - i)).
    rewrite !binCenter_stored by lia. repeat split.
    destruct (Z.eq_dec i 0) as [-> | Hi0].
    { replace (n - 1 - 0) with (n - 1) by lia. rewrite H0, Hlast. ring. }
    destruct (Z.eq_dec i (n - 1)) as [-> | Hil].
    { replace (n - 1 - (n - 1)) with 0 by lia. rewrite H0, Hlast. ring. }
    rewrite !Hint by lia. apply interior_center_mirror. lia.
  - intros i Hi. exists (_bincenters g i). rewrite binCenter_stored by lia.
    split; [reflexivity |]. apply (center_bounds n g); try assumption. lia.
Qed.

Lemma bin_center_layout_witness :
  4 <= 10 <= 255 /\
  exists g,
    construct 10 4 4 4 (fun _ => voxel0) 0 0 (fun _ => 0%R) = Ok g
    /\ (forall i, 1 <= i -> i + 1 <= 10 - 2 ->
          exists c c', binCenter 10 g i = Ok c /\ binCenter 10 g (i + 1) = Ok c'
                       /\ (c' - c = binStep g)%R)
    /\ (forall i, 0 <= i < 10 ->
          exists c c', binCenter 10 g i = Ok c /\ binCenter 10 g (10 - 1 - i) = Ok c'
                       /\ (c' = - c)%R)
    /\ (forall i, 0 <= i < 10 -> exists c, binCenter 10 g i = Ok c /\ (-1 <= c <= 1)%R).
Proof.
  split; [lia | apply (bin_center_layout 10 4 4 4 (fun _ => voxel0) 0 0 (fun _ => 0%R)); lia].
Defined.

Lemma binCenter_beyond (n : Z) (g : fusionData) (i : Z) :
  n <= i -> binCenter n g i = Ok 0%R.
Proof.
  intros Hi. unfold binCenter. destruct (Z.ltb_spec i n); [lia | reflexivity].
Qed.

(** X9.  Construction initialises every cell of [_bincenters]: for two bins
    and for [4 <= _histBins] bins the bin centers and the bin step of the
    constructed store do not depend on what the array held before, and are
    the same for every lattice size and storage.  With two bins the step is
    [2 / -1 = -2]. *)
Theorem construction_initialises_centers (n : Z)
  (w1 h1 d1 w2 h2 d2 : Z) (mem1 mem2 : Z -> fusionvoxel) (pitch1 spitch1 pitch2 spitch2 : Z)
  (bc1 bc2 : array R) :
  n = 2 \/ 4 <= n <= 255 ->
  exists g1 g2,
    construct n w1 h1 d1 mem1 pitch1 spitch1 bc1 = Ok g1
    /\ construct n w2 h2 d2 mem2 pitch2 spitch2 bc2 = Ok g2
    /\ (forall i, 0 <= i -> binCenter n g1 i = binCenter n g2 i)
    /\ binStep g1 = binStep g2
    /\ (n = 2 -> binStep g1 = (-2)%R).
Proof.
  intros [-> | Hn].
  - unfold construct. rewrite !binParams_two_bins. cbn [bind].
    eexists. eexists. split; [reflexivity | split; [reflexivity |]].
    split; [| split].
    + intros i Hi. destruct (Z_lt_dec i 2) as [Hlt | Hge].
      * rewrite !binCenter_stored by lia. cbn [_bincenters].
        destruct (Z.eq_dec i 0) as [-> | Hi0]; [reflexivity |].
        replace i with 1 by lia. reflexivity.
      * rewrite !binCenter_beyond by lia. reflexivity.
    + reflexivity.
    + intros _. cbn [binStep _binstep]. field.
  - destruct (construct_centers n w1 h1 d1 mem1 pitch1 spitch1 bc1 Hn)
      as (g1 & Hg1 & Hs1 & H01 & Hl1 & Hi1).
    destruct (construct_centers n w2 h2 d2 mem2 pitch2 spitch2 bc2 Hn)
      as (g2 & Hg2 & Hs2 & H02 & Hl2 & Hi2).
    exists g1, g2. split; [exact Hg1 | split; [exact Hg2 |]].
    split; [| split; [now rewrite Hs1, Hs2 | lia]].
    intros i Hi. destruct (Z_lt_dec i n) as [Hlt | Hge].
    + rewrite !binCenter_stored by lia. f_equal.
      destruct (Z.eq_dec i 0) as [-> | Hi0]; [now rewrite H01, H02 |].
      destruct (Z.eq_dec i (n - 1)) as [-> | Hil]; [now rewrite Hl1, Hl2 |].
      rewrite Hi1, Hi2 by lia. reflexivity.
    + rewrite !binCenter_beyond by lia. reflexivity.
Qed.

Lemma construction_initialises_centers_witness :
  (2 = 2 \/ 4 <= 2 <= 255) /\
  exists g1 g2,
    construct 2 4 4 4 (fun _ => voxel0) 0 0 (fun _ => 0%R) = Ok g1
    /\ construct 2 1 1 1 (fun _ => voxel0) 8 8 (fun _ => 7%R) = Ok g2
    /\ (forall i, 0 <= i -> binCenter 2 g1 i = binCenter 2 g2 i)
    /\ binStep g1 = binStep g2
    /\ (2 = 2 -> binStep g1 = (-2)%R).
Proof.
  split; [left; reflexivity |].
  apply (construction_initialises_centers 2 4 4 4 1 1 1 (fun _ => voxel0) (fun _ => voxel0)
           0 0 8 8 (fun _ => 0%R) (fun _ => 7%R)).
  left. reflexivity.
Defined.

(** ** More on the histogram update *)

(** X10.  With two bins the threshold argument of [updateHist] has no
    effect: the call increments the "empty" (last) bin when
    [voxdepth - depth >= 0] and the "occluded" (first) bin otherwise. *)
Theorem updateHist_two_bins_split (g : fusionData) (x y z : Z) (voxdepth depth t1 t2 : R) :
  updateHist 2 g x y z voxdepth depth t1 = updateHist 2 g x y z voxdepth depth t2
  /\ ((0 <= voxdepth - depth)%R ->
      updateHist 2 g x y z voxdepth depth t1 = h_last_incr 2 g x y z)
  /\ ((voxdepth - depth < 0)%R ->
      updateHist 2 g x y z voxdepth depth t1 = h_first_incr 2 g x y z).
Proof.
  destruct (updateHist_two_bins g x y z voxdepth depth t1) as [L1 F1].
  destruct (updateHist_two_bins g x y z voxdepth depth t2) as [L2 F2].
  split; [| split; assumption].
  destruct (Rle_lt_dec 0 (voxdepth - depth)) as [H | H].
  - now rewrite L1, L2.
  - now rewrite F1, F2.
Qed.

Lemma updateHist_two_bins_split_witness :
  let g := uniform_store 4 4 4 voxel0 in
  updateHist 2 g 0 0 0 1 (/ 2) (/ 5) = h_last_incr 2 g 0 0 0
  /\ updateHist 2 g 0 0 0 0 1 (/ 5) = h_first_incr 2 g 0 0 0.
Proof.
  intros g. split.
  - apply (proj1 (proj2 (updateHist_two_bins_split g 0 0 0 1 (/ 2) (/ 5) 0))). lra.
  - apply (proj2 (proj2 (updateHist_two_bins_split g 0 0 0 0 1 (/ 5) 0))). lra.
Defined.

(** X11.  For every bin count and all real (finite, non-NaN) depths and
    thresholds, [updateHist] performs no division by zero: the quotient
    [(sd + threshold) / (2 * threshold)] is computed only after both tests
    [sd >= threshold] and [sd <= -threshold] have failed, which for numbers
    leaves [threshold > 0] and excludes two bins.  Every call is one of the
    three increments. *)
Theorem updateHist_division_safe (n : Z) (g : fusionData) (x y z : Z)
  (voxdepth depth threshold : R) :
  updateHist n g x y z voxdepth depth threshold <> DivByZero
  /\ (updateHist n g x y z voxdepth depth threshold = h_last_incr n g x y z
      \/ updateHist n g x y z voxdepth depth threshold = h_first_incr n g x y z
      \/ ((0 < threshold)%R /\ n <> 2
          /\ updateHist n g x y z voxdepth depth threshold
             = h_op_incr n g x y z (near_index n (voxdepth - depth) threshold))).
Proof.
  split; [apply updateHist_no_division_by_zero |].
  unfold updateHist, near_index.
  destruct (Rle_dec (if n =? 2 then 0%R else threshold) (voxdepth - depth)) as [H1 | H1];
    [left; reflexivity |].
  destruct (Rle_dec (voxdepth - depth) (- (if n =? 2 then 0%R else threshold))) as [H2 | H2];
    [right; left; reflexivity |].
  right; right. destruct (Z.eqb_spec n 2) as [E | E]; [lra |].
  split; [lra | split; [exact E |]].
  rewrite fdiv_ok by lra. reflexivity.
Qed.





(** X13.  A call of [updateHist] that returns changes nothing but the
    histogram of the addressed voxel: the fields [u], [v], [p] of that voxel,
    every field of every other voxel of the lattice, the sizes, the bin
    centers and the bin step are as before the call. *)
Theorem updateHist_changes_one_histogram (n : Z) (g g' : fusionData) (x y z : Z)
  (voxdepth depth threshold : R) :
  updateHist n g x y z voxdepth depth threshold = Ok g' ->
  in_lattice g x y z -> _w g * _h g * _d g <= 2 ^ 64 ->
  (u g' x y z = u g x y z /\ v g' x y z = v g x y z /\ p g' x y z = p g x y z)
  /\ (forall x' y' z', in_lattice g x' y' z' -> (x', y', z') <> (x, y, z) ->
        u g' x' y' z' = u g x' y' z' /\ v g' x' y' z' = v g x' y' z'
        /\ p g' x' y' z' = p g x' y' z' /\ h g' x' y' z' = h g x' y' z')
  /\ same_sizes g g'
  /\ (forall i, binCenter n g' i = binCenter n g i)
  /\ binStep g' = binStep g.
Proof.
  intros Hrun (Hx & Hy & Hz) Hsize.
  destruct (updateHist_frame n g g' x y z voxdepth depth threshold Hrun)
    as (_ & _ & _ & Hu & Hv & Hp & _ & Hbc & Hst & Hdims).
  split; [auto |]. split; [| split; [| split]].
  - intros x' y' z' (Hx' & Hy' & Hz') Hne.
    now apply (updateHist_other_voxels n g g' x y z x' y' z' voxdepth depth threshold).
  - unfold same_sizes. injection Hdims as -> -> -> _ _. auto.
  - intros i. unfold binCenter. now rewrite Hbc.
  - exact Hst.
Qed.

Lemma updateHist_changes_one_histogram_witness :
  let g := uniform_store 4 4 4 voxel0 in
  exists g',
    updateHist 10 g 0 0 0 1 (/ 2) (/ 5) = Ok g'
    /\ in_lattice g 0 0 0 /\ _w g * _h g * _d g <= 2 ^ 64
    /\ (u g' 0 0 0 = u g 0 0 0 /\ v g' 0 0 0 = v g 0 0 0 /\ p g' 0 0 0 = p g 0 0 0)
    /\ (forall x' y' z', in_lattice g x' y' z' -> (x', y', z') <> (0, 0, 0) ->
          u g' x' y' z' = u g x' y' z' /\ v g' x' y' z' = v g x' y' z'
          /\ p g' x' y' z' = p g x' y' z' /\ h g' x' y' z' = h g x' y' z')
    /\ same_sizes g g'
    /\ (forall i, binCenter 10 g' i = binCenter 10 g i)
    /\ binStep g' = binStep g.
Proof.
  intros g.
  assert (Hrun : updateHist 10 g 0 0 0 1 (/ 2) (/ 5)
                 = Ok (set_h g 0 0 0 {| bin := upd (bin (h g 0 0 0)) 9 (bin (h g 0 0 0) 9 + 1) |})).
  { rewrite updateHist_empty by (cbn; lra).
    unfold h_last_incr, last_index. now rewrite bin_incr_in by lia. }
  assert (Hin : in_lattice g 0 0 0) by (unfold in_lattice; cbn; lia).
  assert (Hsize : _w g * _h g * _d g <= 2 ^ 64) by (cbn; lia).
  eexists. split; [exact Hrun | split; [exact Hin | split; [exact Hsize |]]].
  exact (updateHist_changes_one_histogram 10 g _ 0 0 0 1 (/ 2) (/ 5) Hrun Hin Hsize).
Defined.

(** ** More on the proximal step *)

Lemma sum_h_app (hist : histogram) (l l' : list Z) :
  sum_h hist (l ++ l') = sum_h hist l + sum_h hist l'.
Proof.
  induction l as [| j l IH]; cbn.
  - reflexivity.
  - fold (sum_h hist (l ++ l')). fold (sum_h hist l). rewrite IH. lia.
Qed.

Lemma Zseq_last (len : nat) : forall lo, Zseq lo (S len) = Zseq lo len ++ [lo + Z.of_nat len].
Proof.
  induction len as [| len IH]; intros lo.
  - cbn. now rewrite Z.add_0_r.
  - change (Zseq lo (S (S len))) with (lo :: Zseq (lo + 1) (S len)).
    rewrite IH. cbn. do 3 f_equal. lia.
Qed.

(** One step of the index moves the count of one bin from the second sum of
    [W_i] to the first. *)
Lemma W_spec_step (n : Z) (hist : histogram) (i : Z) :
  1 <= i <= n ->
  W_spec n hist i = W_spec n hist (i - 1) - 2 * bin hist (op_index i).
Proof.
  intros Hi. unfold W_spec.
  replace (Z.to_nat i) with (S (Z.to_nat (i - 1))) by lia.
  rewrite Zseq_last, sum_h_app.
  replace (1 + Z.of_nat (Z.to_nat (i - 1))) with i by lia.
  replace (i - 1 + 1) with i by lia.
  replace (Z.to_nat (n - (i - 1))) with (S (Z.to_nat (n - i))) by lia.
  cbn [Zseq sum_h fold_right].
  fold (sum_h hist (Zseq (i + 1) (Z.to_nat (n - i)))). lia.
Qed.

(** X14.  For bin counts up to 254, [Wi] returns for every index
    [0 <= i <= _histBins]; [Wi(0)] is the sum of all counts [h(1..bins)],
    [Wi(bins)] is its negation, and each step of the index lowers the value
    by twice one count: [Wi(i) = Wi(i-1) - 2 h(i)]. *)
Theorem Wi_steps (n : Z) (g : fusionData) (x y z : Z) :
  0 <= n <= 254 ->
  Wi n g 0 x y z = Ok (sum_h (h g x y z) (Zseq 1 (Z.to_nat n)))
  /\ Wi n g n x y z = Ok (- sum_h (h g x y z) (Zseq 1 (Z.to_nat n)))
  /\ (forall i, 1 <= i <= n ->
        exists w0 w1 c,
          Wi n g (i - 1) x y z = Ok w0 /\ Wi n g i x y z = Ok w1
          /\ hist_at n (h g x y z) i = Ok c /\ w1 = w0 - 2 * c).
Proof.
  intros Hn. split; [| split].
  - rewrite Wi_value by lia. unfold W_spec. cbn [Z.to_nat Zseq sum_h fold_right].
    replace (n - 0) with n by lia. f_equal.
  - rewrite Wi_value by lia. unfold W_spec.
    replace (Z.to_nat (n - n)) with 0%nat by lia. cbn [Zseq sum_h fold_right].
    f_equal. fold (sum_h (h g x y z) (Zseq 1 (Z.to_nat n))). lia.
  - intros i Hi.
    exists (W_spec n (h g x y z) (i - 1)), (W_spec n (h g x y z) i),
           (bin (h g x y z) (op_index i)).
    rewrite !Wi_value by lia. rewrite hist_at_in by lia.
    repeat split. apply W_spec_step. lia.
Qed.

Lemma Wi_steps_witness :
  0 <= 2 <= 254 /\
  Wi 2 two_bin_store 0 0 0 0 = Ok (sum_h (h two_bin_store 0 0 0) (Zseq 1 (Z.to_nat 2)))
  /\ Wi 2 two_bin_store 2 0 0 0 = Ok (- sum_h (h two_bin_store 0 0 0) (Zseq 1 (Z.to_nat 2)))
  /\ (forall i, 1 <= i <= 2 ->
        exists w0 w1 c,
          Wi 2 two_bin_store (i - 1) 0 0 0 = Ok w0 /\ Wi 2 two_bin_store i 0 0 0 = Ok w1
          /\ hist_at 2 (h two_bin_store 0 0 0) i = Ok c /\ w1 = w0 - 2 * c).
Proof.
  split; [lia | apply (Wi_steps 2 two_bin_store 0 0 0); lia].
Defined.

(** X15.  For bin counts up to 254, a non-negative product [tau * lambda]
    and a non-negative count [h(i)], the candidate [pi(u, i, ...)] is not
    above the candidate [pi(u, i-1, ...)]: over a histogram of non-negative
    counts the candidates [p_0 >= p_1 >= ... >= p_bins] are in descending
    order. *)
Theorem pi_descending (n : Z) (g : fusionData) (u0 : R) (i x y z : Z) (tau lambda : R) :
  0 <= n <= 254 -> 1 <= i <= n ->
  (0 <= tau * lambda)%R ->
  0 <= bin (h g x y z) (op_index i) ->
  exists a b,
    pi n g u0 (i - 1) x y z tau lambda = Ok a
    /\ pi n g u0 i x y z tau lambda = Ok b
    /\ (b <= a)%R.
Proof.
  intros Hn Hi Htl Hc.
  rewrite !pi_value by lia.
  eexists. eexists. split; [reflexivity | split; [reflexivity |]].
  rewrite (W_spec_step n (h g x y z) i Hi).
  assert (Hle : (IZR (W_spec n (h g x y z) (i - 1) - 2 * bin (h g x y z) (op_index i))
                 <= IZR (W_spec n (h g x y z) (i - 1)))%R) by (apply IZR_le; lia).
  apply Rplus_le_compat_l. apply Rmult_le_compat_l; assumption.
Qed.

Lemma pi_descending_witness :
  0 <= 2 <= 254 /\ 1 <= 1 <= 2 /\ (0 <= 1 * 1)%R
  /\ 0 <= bin (h two_bin_store 0 0 0) (op_index 1)
  /\ exists a b,
       pi 2 two_bin_store 0 (1 - 1) 0 0 0 1 1 = Ok a
       /\ pi 2 two_bin_store 0 1 0 0 0 1 1 = Ok b
       /\ (b <= a)%R.
Proof.
  assert (H1 : (0 <= 1 * 1)%R) by lra.
  assert (H2 : 0 <= bin (h two_bin_store 0 0 0) (op_index 1)) by (cbn; lia).
  split; [lia | split; [lia | split; [exact H1 | split; [exact H2 |]]]].
  exact (pi_descending 2 two_bin_store 0 1 0 0 0 1 1 ltac:(lia) ltac:(lia) H1 H2).
Defined.

(** ** Size queries and world coordinates *)

(** X16.  The three derived size queries return for every store, and they
    are consistent with [sizeBytes()]: [sizeKBytes() = 1024 * sizeMBytes()],
    [sizeMBytes() = 1024 * sizeGBytes()] and
    [sizeGBytes() * 1024^3 = sizeBytes()]; none of them is negative. *)
Theorem size_queries_consistent (g : fusionData) :
  exists k m gb,
    sizeKBytes g = Ok k /\ sizeMBytes g = Ok m /\ sizeGBytes g = Ok gb
    /\ (k = 1024 * m)%R /\ (m = 1024 * gb)%R
    /\ (gb * 1024 * 1024 * 1024 = IZR (sizeBytes g))%R
    /\ (0 <= gb <= m)%R /\ (m <= k)%R.
Proof.
  assert (Hpos : (0 <= IZR (sizeBytes g))%R).
  { apply IZR_le. unfold sizeBytes, size_t. apply Z.mod_pos_bound. lia. }
  unfold sizeGBytes, sizeMBytes, sizeKBytes.
  rewrite fdiv_ok by lra. cbn [bind]. rewrite fdiv_ok by lra. cbn [bind].
  rewrite fdiv_ok by lra.
  eexists. eexists. eexists.
  split; [reflexivity | split; [reflexivity | split; [reflexivity |]]].
  split; [field | split; [field | split; [field |]]].
  assert (Hk : (0 <= IZR (sizeBytes g) / 1024)%R) by (apply Rmult_le_pos; lra).
  assert (Hm : (0 <= IZR (sizeBytes g) / 1024 / 1024)%R) by (apply Rmult_le_pos; lra).
  assert (Hg : (0 <= IZR (sizeBytes g) / 1024 / 1024 / 1024)%R) by (apply Rmult_le_pos; lra).
  lra.
Qed.

Section WorldCoordsFacts.

Variable Rectangle : Type.
Variable rect_a : Rectangle -> float3.
Variable rect_size : Rectangle -> float3.

Lemma worldCoords_value (g : fusionData) (vol : Rectangle) (x y z : Z) :
  0 < _w g -> 0 < _h g -> 0 < _d g ->
  worldCoords Rectangle rect_a rect_size g vol x y z
  = Ok (make_float3
          (Float3.x (rect_a vol) + Float3.x (rect_size vol) * ((IZR x + / 2) / IZR (_w g)))
          (Float3.y (rect_a vol) + Float3.y (rect_size vol) * ((IZR y + / 2) / IZR (_h g)))
          (Float3.z (rect_a vol) + Float3.z (rect_size vol) * ((IZR z + / 2) / IZR (_d g)))).
Proof.
  intros Hw Hh Hd. unfold worldCoords.
  rewrite !fdiv_ok by (apply not_0_IZR; lia). reflexivity.
Qed.

Lemma worldCoords_zero_size (g : fusionData) (vol : Rectangle) (x y z : Z) :
  _w g = 0 \/ _h g = 0 \/ _d g = 0 ->
  worldCoords Rectangle rect_a rect_size g vol x y z = DivByZero.
Proof.
  intros H. unfold worldCoords.
  destruct (Z.eq_dec (_w g) 0) as [-> | Hw]; [now rewrite fdiv_zero |].
  rewrite (fdiv_ok _ (IZR (_w g))) by (apply not_0_IZR; assumption). cbn [bind].
  destruct (Z.eq_dec (_h g) 0) as [-> | Hh]; [now rewrite fdiv_zero |].
  rewrite (fdiv_ok _ (IZR (_h g))) by (apply not_0_IZR; assumption). cbn [bind].
  destruct H as [H | [H | H]]; try contradiction.
  rewrite H. now rewrite fdiv_zero.
Qed.




End WorldCoordsFacts.



(** A lattice of 2 x 2 x 2 voxels in the volume from (0,0,0) with size
    (2,2,2): the centre of voxel (0,0,0) is (1/2, 1/2, 1/2). *)
Example worldCoords_unit_voxel :
  worldCoords (float3 * float3) fst snd (uniform_store 2 2 2 voxel0)
    (make_float3 0 0 0, make_float3 2 2 2) 0 0 0
  = Ok (make_float3 (/ 2) (/ 2) (/ 2)).
Proof.
  rewrite worldCoords_value by (cbn; lia). cbn. f_equal. f_equal; field.
Qed.

Lemma construct_default_fields (n : Z) (mem : Z -> fusionvoxel) (bc : array R) :
  n = 2 \/ 4 <= n <= 255 ->
  exists g,
    construct_default n mem bc = Ok g
    /\ _w g = 0 /\ _h g = 0 /\ _d g = 0 /\ _pitch g = 0 /\ _spitch g = 0.
Proof.
  intros [-> | Hn]; unfold construct_default.
  - rewrite binParams_two_bins. cbn [bind]. eexists. split; [reflexivity |]. cbn. auto.
  - destruct (binParams_centers n bc Hn) as (bc' & Hrun & _). rewrite Hrun. cbn [bind].
    eexists. split; [reflexivity |]. cbn. auto.
Qed.

(** X19.  The default constructor (two bins, or four and more) yields a
    store without voxels: [elements()] and [sizeBytes()] are 0, so is
    [sizeGBytes()], every sum over the voxels is empty, and [worldCoords]
    divides by the zero width for every index. *)
Theorem default_store_is_empty (n : Z) (mem : Z -> fusionvoxel) (bc : array R) :
  n = 2 \/ 4 <= n <= 255 ->
  exists g,
    construct_default n mem bc = Ok g
    /\ elements g = 0 /\ sizeBytes g = 0
    /\ sizeGBytes g = Ok 0%R
    /\ (forall F, sum_voxels g F = 0%R)
    /\ (forall (Rectangle : Type) (rect_a rect_size : Rectangle -> float3) vol x y z,
          worldCoords Rectangle rect_a rect_size g vol x y z = DivByZero).
Proof.
  intros Hn.
  destruct (construct_default_fields n mem bc Hn) as (g & Hg & Hw & Hh & Hd & Hp & Hsp).
  exists g. split; [exact Hg |].
  assert (Hel : elements g = 0) by (unfold elements; rewrite Hw; reflexivity).
  assert (Hsb : sizeBytes g = 0) by (unfold sizeBytes; rewrite Hd, Z.mul_0_r; reflexivity).
  split; [exact Hel | split; [exact Hsb | split; [| split]]].
  - unfold sizeGBytes, sizeMBytes, sizeKBytes. rewrite Hsb.
    rewrite !fdiv_ok by lra. cbn [bind]. rewrite !fdiv_ok by lra. cbn [bind].
    rewrite fdiv_ok by lra. f_equal. field.
  - intros F. unfold sum_voxels, sum3. rewrite Hd. reflexivity.
  - intros Rectangle rect_a rect_size vol x y z.
    apply worldCoords_zero_size. left. exact Hw.
Qed.

Lemma default_store_is_empty_witness :
  (10 = 2 \/ 4 <= 10 <= 255) /\
  exists g,
    construct_default 10 (fun _ => voxel0) (fun _ => 0%R) = Ok g
    /\ elements g = 0 /\ sizeBytes g = 0
    /\ sizeGBytes g = Ok 0%R
    /\ (forall F, sum_voxels g F = 0%R)
    /\ (forall (Rectangle : Type) (rect_a rect_size : Rectangle -> float3) vol x y z,
          worldCoords Rectangle rect_a rect_size g vol x y z = DivByZero).
Proof.
  split; [right; lia |].
  apply (default_store_is_empty 10 (fun _ => voxel0) (fun _ => 0%R)). right. lia.
Defined.

(** ** Writes through the accessors *)

(** A store obtained by replacing the voxel at the address of [(x, y, z)]:
    reading that voxel gives the new value, reading any other voxel of the
    lattice gives the old one. *)
Lemma write_at_address (g g' : fusionData) (x y z : Z) (vox : fusionvoxel) :
  same_sizes g g' ->
  (forall i, _voxel g' i = if i =? offset g x y z then vox else _voxel g i) ->
  in_lattice g x y z -> _w g * _h g * _d g <= 2 ^ 64 ->
  _voxel g' (offset g' x y z) = vox
  /\ (forall x' y' z', in_lattice g x' y' z' -> (x', y', z') <> (x, y, z) ->
        _voxel g' (offset g' x' y' z') = _voxel g (offset g x' y' z')).
Proof.
  intros (Ew & Eh & Ed) Hmem (Hx & Hy & Hz) Hsize.
  assert (Hoff : forall a b c, offset g' a b c = offset g a b c).
  { intros a b c. unfold offset. now rewrite Ew, Eh. }
  split.
  - rewrite Hoff, Hmem. now rewrite Z.eqb_refl.
  - intros x' y' z' (Hx' & Hy' & Hz') Hne. rewrite Hoff, Hmem.
    destruct (Z.eqb_spec (offset g x' y' z') (offset g x y z)) as [E | _]; [| reflexivity].
    exfalso. apply Hne.
    destruct (offset_injective g x' y' z' x y z Hx' Hy' Hz' Hx Hy Hz Hsize E) as (-> & -> & ->).
    reflexivity.
Qed.

(** X20.  In a store whose voxel count fits [size_t], a value written
    through the reference returned by [u(x, y, z)] is read back by
    [u(x, y, z)]; the write leaves [u] of every other voxel of the lattice
    and the [v], [p] and [h] fields of all voxels of the lattice as they
    were.  The same holds for writes through [v], [p] and [h]. *)
Theorem accessor_write_read (g : fusionData) (x y z x' y' z' : Z)
  (a b : R) (c : float3) (hist : histogram) :
  in_lattice g x y z -> in_lattice g x' y' z' -> _w g * _h g * _d g <= 2 ^ 64 ->
  (u (set_u g x y z a) x y z = a
   /\ ((x', y', z') <> (x, y, z) -> u (set_u g x y z a) x' y' z' = u g x' y' z')
   /\ v (set_u g x y z a) x' y' z' = v g x' y' z'
   /\ p (set_u g x y z a) x' y' z' = p g x' y' z'
   /\ h (set_u g x y z a) x' y' z' = h g x' y' z')
  /\ (v (set_v g x y z b) x y z = b
      /\ ((x', y', z') <> (x, y, z) -> v (set_v g x y z b) x' y' z' = v g x' y' z')
      /\ u (set_v g x y z b) x' y' z' = u g x' y' z'
      /\ p (set_v g x y z b) x' y' z' = p g x' y' z'
      /\ h (set_v g x y z b) x' y' z' = h g x' y' z')
  /\ (p (set_p g x y z c) x y z = c
      /\ ((x', y', z') <> (x, y, z) -> p (set_p g x y z c) x' y' z' = p g x' y' z')
      /\ u (set_p g x y z c) x' y' z' = u g x' y' z'
      /\ v (set_p g x y z c) x' y' z' = v g x' y' z'
      /\ h (set_p g x y z c) x' y' z' = h g x' y' z')
  /\ (h (set_h g x y z hist) x y z = hist
      /\ ((x', y', z') <> (x, y, z) -> h (set_h g x y z hist) x' y' z' = h g x' y' z')
      /\ u (set_h g x y z hist) x' y' z' = u g x' y' z'
      /\ v (set_h g x y z hist) x' y' z' = v g x' y' z'
      /\ p (set_h g x y z hist) x' y' z' = p g x' y' z').
Proof.
  intros Hin Hin' Hsize.
  assert (Hcase : (x', y', z') = (x, y, z) \/ (x', y', z') <> (x, y, z)).
  { destruct (Z.eq_dec x' x) as [-> | N]; [| right; congruence].
    destruct (Z.eq_dec y' y) as [-> | N]; [| right; congruence].
    destruct (Z.eq_dec z' z) as [-> | N]; [left; reflexivity | right; congruence]. }
  assert (Hsame : forall g', _w g' = _w g -> _h g' = _h g -> _d g' = _d g -> same_sizes g g')
    by (intros g' E1 E2 E3; repeat split; assumption).
  split; [| split; [| split]].
  - destruct (write_at_address g (set_u g x y z a) x y z
                (Voxel.make a (Voxel.v (_voxel g (offset g x y z)))
                   (Voxel.p (_voxel g (offset g x y z))) (Voxel.h (_voxel g (offset g x y z)))))
      as [Hself Hother]; try assumption; [apply Hsame; reflexivity | reflexivity |].
    unfold u, v, p, h.
    split; [now rewrite Hself |].
    split; [intros Hne; now rewrite (Hother x' y' z' Hin' Hne) |].
    destruct Hcase as [E | Hne].
    + injection E as -> -> ->. rewrite Hself. repeat split.
    + rewrite (Hother x' y' z' Hin' Hne). repeat split.
  - destruct (write_at_address g (set_v g x y z b) x y z
                (Voxel.make (Voxel.u (_voxel g (offset g x y z))) b
                   (Voxel.p (_voxel g (offset g x y z))) (Voxel.h (_voxel g (offset g x y z)))))
      as [Hself Hother]; try assumption; [apply Hsame; reflexivity | reflexivity |].
    unfold u, v, p, h.
    split; [now rewrite Hself |].
    split; [intros Hne; now rewrite (Hother x' y' z' Hin' Hne) |].
    destruct Hcase as [E | Hne].
    + injection E as -> -> ->. rewrite Hself. repeat split.
    + rewrite (Hother x' y' z' Hin' Hne). repeat split.
  - destruct (write_at_address g (set_p g x y z c) x y z
                (Voxel.make (Voxel.u (_voxel g (offset g x y z)))
                   (Voxel.v (_voxel g (offset g x y z))) c (Voxel.h (_voxel g (offset g x y z)))))
      as [Hself Hother]; try assumption; [apply Hsame; reflexivity | reflexivity |].
    unfold u, v, p, h.
    split; [now rewrite Hself |].
    split; [intros Hne; now rewrite (Hother x' y' z' Hin' Hne) |].
    destruct Hcase as [E | Hne].
    + injection E as -> -> ->. rewrite Hself. repeat split.
    + rewrite (Hother x' y' z' Hin' Hne). repeat split.
  - destruct (write_at_address g (set_h g x y z hist) x y z
                (Voxel.make (Voxel.u (_voxel g (offset g x y z)))
                   (Voxel.v (_voxel g (offset g x y z))) (Voxel.p (_voxel g (offset g x y z))) hist))
      as [Hself Hother]; try assumption; [apply Hsame; reflexivity | reflexivity |].
    unfold u, v, p, h.
    split; [now rewrite Hself |].
    split; [intros Hne; now rewrite (Hother x' y' z' Hin' Hne) |].
    destruct Hcase as [E | Hne].
    + injection E as -> -> ->. rewrite Hself. repeat split.
    + rewrite (Hother x' y' z' Hin' Hne). repeat split.
Qed.

Lemma accessor_write_read_witness :
  in_lattice line_store 0 0 0 /\ in_lattice line_store 1 0 0
  /\ _w line_store * _h line_store * _d line_store <= 2 ^ 64
  /\ u (set_u line_store 0 0 0 5) 0 0 0 = 5%R
  /\ u (set_u line_store 0 0 0 5) 1 0 0 = u line_store 1 0 0
  /\ p (set_u line_store 0 0 0 5) 1 0 0 = p line_store 1 0 0
  /\ h (set_h line_store 0 0 0 hist0) 1 0 0 = h line_store 1 0 0.
Proof.
  assert (H0 : in_lattice line_store 0 0 0) by (unfold in_lattice; cbn; lia).
  assert (H1 : in_lattice line_store 1 0 0) by (unfold in_lattice; cbn; lia).
  assert (Hs : _w line_store * _h line_store * _d line_store <= 2 ^ 64) by (cbn; lia).
  assert (Hne : (1, 0, 0) <> (0, 0, 0)) by discriminate.
  destruct (accessor_write_read line_store 0 0 0 1 0 0 5 0 (make_float3 0 0 0) hist0 H0 H1 Hs)
    as ((Uself & Uother & _ & Up & _) & _ & _ & (_ & Hother & _)).
  split; [exact H0 | split; [exact H1 | split; [exact Hs |]]].
  split; [exact Uself | split; [exact (Uother Hne) | split; [exact Up | exact (Hother Hne)]]].
Defined.

(** X21.  The accessors do no bound check and the address is linear, so an
    x index that runs past the end of a row addresses the next row, and a y
    index that runs past the end of a slice addresses the next slice:
    [(x + _w, y, z)] is the voxel [(x, y + 1, z)] and [(x, y + _h, z)] is the
    voxel [(x, y, z + 1)], for all four fields. *)
Theorem accessor_overrun_aliases (g : fusionData) (x y z : Z) :
  (offset g (x + _w g) y z = offset g x (y + 1) z
   /\ offset g x (y + _h g) z = offset g x y (z + 1))
  /\ (u g (x + _w g) y z = u g x (y + 1) z /\ v g (x + _w g) y z = v g x (y + 1) z
      /\ p g (x + _w g) y z = p g x (y + 1) z /\ h g (x + _w g) y z = h g x (y + 1) z)
  /\ (u g x (y + _h g) z = u g x y (z + 1) /\ v g x (y + _h g) z = v g x y (z + 1)
      /\ p g x (y + _h g) z = p g x y (z + 1) /\ h g x (y + _h g) z = h g x y (z + 1)).
Proof.
  assert (Ex : offset g (x + _w g) y z = offset g x (y + 1) z)
    by (unfold offset; f_equal; ring).
  assert (Ey : offset g x (y + _h g) z = offset g x y (z + 1))
    by (unfold offset; f_equal; ring).
  unfold u, v, p, h. rewrite Ex, Ey. repeat split.
Qed.
